(** * Smart Day-Starter Dashboard: event bus, storage gateway,
      auto-refresh coordinator and widget lifecycle

    A shallow embedding of
    - [src/js/services/eventBus.js]   (class [EventBus]),
    - the storage service             (class [StorageService]),
    - [src/js/services/realtime.js]   (class [RealtimeService]),
    - [src/js/widgets/baseWidget.js]  (class [BaseWidget]),
    - the loading manager             (class [LoadingManager], the two
                                       methods [BaseWidget] calls),
    with the properties the specification states about them. *)

From stdpp Require Import gmap strings list.

Open Scope string_scope.
Open Scope list_scope.
Open Scope nat_scope.
Open Scope stdpp_scope.

(** ** Completions of a JavaScript call: normal return or a thrown value. *)

Inductive exn : Type :=
  | Error (message : string)      (* [new Error(message)] *)
  | TypeError (message : string)  (* raised by the engine *)
  | UserExn                       (* whatever a listener body throws *)
  | Nullish.                      (* [null] or [undefined], thrown or rejected with *)

Inductive completion (A : Type) : Type :=
  | Return (a : A)
  | Throw (e : exn).
Arguments Return {A} a.
Arguments Throw {A} e.

(* ===================================================================== *)
(** * Event bus *)
(* ===================================================================== *)

Module EventBus.

(** What can be passed as [callback].  Functions are compared by
    reference: a user function is named by [id]; the arrow function
    [onceWrapper] allocated by the [uid]-th call of [once] closes over
    [eventName] and [callback].  [VOther] is any value whose [typeof] is
    not ['function']. *)
Inductive value : Type :=
  | VFunc (id : nat)
  | VOnce (uid : nat) (eventName : string) (callback : value)
  | VOther.

#[global] Instance value_eq_dec : EqDecision value.
Proof.
  unfold EqDecision, Decision. decide equality.
  - apply Nat.eq_dec.
  - apply String.eq_dec.
  - apply Nat.eq_dec.
Defined.

Definition is_function (v : value) : bool :=
  match v with VOther => false | _ => true end.

Inductive console_entry : Type :=
  | WarnMaxListeners (max : nat) (eventName : string)
  | ErrorInListener (eventName : string) (e : exn).

(** [Array.prototype.indexOf] and [splice(index, 1)]. *)
Fixpoint indexOf (x : value) (l : list value) : option nat :=
  match l with
  | [] => None
  | y :: l' => if decide (x = y) then Some 0 else S <$> indexOf x l'
  end.

Definition splice1 (index : nat) (l : list value) : list value :=
  delete index l.

Section Bus.

Context {Arg : Type}.

(** What a user function does when called: a sequence of calls on the
    bus, possibly cut short by a [throw]. *)
Inductive action : Type :=
  | DoOn (eventName : string) (callback : value)
  | DoOnce (eventName : string) (callback : value)
  | DoOff (eventName : string) (callback : value)
  | DoRemoveAll (eventName : option string)
  | DoEmit (eventName : string) (args : list Arg)
  | DoThrow.

(** Ghost history of what happened on the bus, oldest first. *)
Inductive hist_event : Type :=
  | HOn (eventName : string) (callback : value) (ok : bool)
      (* [on(eventName, callback)] returned [ok] *)
  | HOff (eventName : string) (callback : value) (found : bool)
      (* [off(eventName, callback)] returned [found] *)
  | HCall (eventName : string) (callback : value) (args : list Arg)
      (* an [emit(eventName, ...args)] calls the listener [callback] *)
  | HEnter (id : nat) (args : list Arg).
      (* the user function [id] is entered with [args] *)

Record bus : Type := Bus {
  events : gmap string (list value);   (* this.events *)
  maxListeners : nat;                  (* this.maxListeners *)
  nextWrapper : nat;                   (* closures allocated by [once] so far *)
  history : list hist_event;           (* ghost *)
  console : list console_entry         (* console.warn / console.error, oldest first *)
}.

Definition set_events (ev : gmap string (list value)) (b : bus) : bus :=
  Bus ev (maxListeners b) (nextWrapper b) (history b) (console b).
Definition log_console (c : console_entry) (b : bus) : bus :=
  Bus (events b) (maxListeners b) (nextWrapper b) (history b) (console b ++ [c]).
Definition log_history (h : hist_event) (b : bus) : bus :=
  Bus (events b) (maxListeners b) (nextWrapper b) (history b ++ [h]) (console b).
Definition alloc_wrapper (b : bus) : bus :=
  Bus (events b) (maxListeners b) (S (nextWrapper b)) (history b) (console b).

(** [constructor()] *)
Definition new_EventBus : bus := Bus ∅ 50 0 [] [].

(** How often the user function [id] has been entered. *)
Definition is_enter (id : nat) (h : hist_event) : bool :=
  match h with HEnter i _ => Nat.eqb i id | _ => false end.
Definition timesEntered (id : nat) (b : bus) : nat :=
  length (List.filter (is_enter id) (history b)).

(** [on(eventName, callback)] *)
Definition on (eventName : string) (callback : value) (b : bus)
  : completion bool * bus :=
  if negb (is_function callback) then
    (Throw (Error "Callback must be a function"), b)
  else
    let b1 := match events b !! eventName with
              | Some _ => b
              | None => set_events (<[eventName := []]> (events b)) b
              end in
    let listeners := default [] (events b1 !! eventName) in
    if (maxListeners b1 <=? length listeners)%nat then
      (Return false,
       log_history (HOn eventName callback false)
         (log_console (WarnMaxListeners (maxListeners b1) eventName) b1))
    else
      (Return true,
       log_history (HOn eventName callback true)
         (set_events (<[eventName := listeners ++ [callback]]> (events b1)) b1)).

(** [once(eventName, callback)] *)
Definition once (eventName : string) (callback : value) (b : bus)
  : completion bool * bus :=
  let onceWrapper := VOnce (nextWrapper b) eventName callback in
  on eventName onceWrapper (alloc_wrapper b).

(** [off(eventName, callback)] *)
Definition off (eventName : string) (callback : value) (b : bus)
  : bool * bus :=
  match events b !! eventName with
  | None => (false, log_history (HOff eventName callback false) b)
  | Some listeners =>
      match indexOf callback listeners with
      | Some index =>
          let listeners' := splice1 index listeners in
          (true,
           log_history (HOff eventName callback true)
             match listeners' with
             | [] => set_events (delete eventName (events b)) b
             | _ => set_events (<[eventName := listeners']> (events b)) b
             end)
      | None => (false, log_history (HOff eventName callback false) b)
      end
  end.

(** [removeAllListeners(eventName)]; the test [if (eventName)] is false for
    a missing argument and for the empty string. *)
Definition removeAllListeners (eventName : option string) (b : bus)
  : bool * bus :=
  match eventName with
  | Some (String a s) =>
      (bool_decide (is_Some (events b !! String a s)),
       set_events (delete (String a s) (events b)) b)
  | _ => (true, set_events ∅ b)
  end.

(** [listenerCount(eventName)] *)
Definition listenerCount (eventName : string) (b : bus) : nat :=
  match events b !! eventName with
  | None => 0
  | Some listeners => length listeners
  end.

(** The array registered under [eventName] ([[]] when there is none). *)
Definition listenersOf (eventName : string) (b : bus) : list value :=
  default [] (events b !! eventName).

(** What [emit] reports: the boolean it returns and, as a ghost output,
    the listeners it called itself paired with whether each returned
    normally. *)
Record emit_report : Type := Report {
  result : bool;
  invoked : list (value * bool)
}.

Variable code : nat -> list Arg -> list action.

Section Calls.

(** The [emit] a listener body can reach; [None] stands for a nesting of
    emissions deeper than the fuel at hand. *)
Variable emit_rec : string -> list Arg -> bus -> option (emit_report * bus).

Fixpoint run_body (body : list action) (b : bus)
  : option (completion unit * bus) :=
  match body with
  | [] => Some (Return tt, b)
  | DoOn e cb :: rest =>
      match on e cb b with
      | (Return _, b') => run_body rest b'
      | (Throw x, b') => Some (Throw x, b')
      end
  | DoOnce e cb :: rest =>
      match once e cb b with
      | (Return _, b') => run_body rest b'
      | (Throw x, b') => Some (Throw x, b')
      end
  | DoOff e cb :: rest => run_body rest (off e cb b).2
  | DoRemoveAll e :: rest => run_body rest (removeAllListeners e b).2
  | DoEmit e args :: rest =>
      match emit_rec e args b with
      | Some (_, b') => run_body rest b'
      | None => None
      end
  | DoThrow :: _ => Some (Throw UserExn, b)
  end.

(** [callback(...args)] for a value [callback]. *)
Fixpoint call (callback : value) (args : list Arg) (b : bus)
  : option (completion unit * bus) :=
  match callback with
  | VFunc id => run_body (code id args) (log_history (HEnter id args) b)
  | VOnce uid eventName cb =>
      (* callback(...args); this.off(eventName, onceWrapper); *)
      match call cb args b with
      | Some (Return _, b') =>
          Some (Return tt, (off eventName (VOnce uid eventName cb) b').2)
      | Some (Throw x, b') => Some (Throw x, b')
      | None => None
      end
  | VOther => Some (Throw (TypeError "callback is not a function"), b)
  end.

(** [listenersCopy.forEach(callback => { try {...} catch (error) {...} })] *)
Fixpoint forEach_listener (eventName : string) (args : list Arg)
    (listenersCopy : list value) (successCount : nat)
    (seen : list (value * bool)) (b : bus)
  : option (nat * list (value * bool) * bus) :=
  match listenersCopy with
  | [] => Some (successCount, seen, b)
  | callback :: rest =>
      match call callback args (log_history (HCall eventName callback args) b) with
      | Some (Return _, b') =>
          forEach_listener eventName args rest (S successCount)
            (seen ++ [(callback, true)]) b'
      | Some (Throw x, b') =>
          forEach_listener eventName args rest successCount
            (seen ++ [(callback, false)])
            (log_console (ErrorInListener eventName x) b')
      | None => None
      end
  end.

End Calls.

(** [emit(eventName, ...args)] *)
Fixpoint emit (fuel : nat) (eventName : string) (args : list Arg) (b : bus)
  : option (emit_report * bus) :=
  match fuel with
  | 0 => None
  | S fuel' =>
      match events b !! eventName with
      | None => Some (Report false [], b)
      | Some listeners =>
          let listenersCopy := listeners in
          match forEach_listener (emit fuel') eventName args listenersCopy 0 [] b with
          | Some (successCount, seen, b') =>
              Some (Report (0 <? successCount)%nat seen, b')
          | None => None
          end
      end
  end.

(** Listener bodies that never emit themselves. *)
Definition emits (a : action) : bool :=
  match a with DoEmit _ _ => true | _ => false end.

Definition no_reentrant_emit : Prop :=
  forall id args, forallb (fun a => negb (emits a)) (code id args) = true.

(** No event name has more listeners than the cap, and a step from [b] to
    [b'] that keeps it so. *)
Definition cap_ok (b : bus) : Prop :=
  forall e, listenerCount e b <= maxListeners b.

Definition keeps_cap (b b' : bus) : Prop :=
  maxListeners b' = maxListeners b /\ (cap_ok b -> cap_ok b').

(** The history and the console of [b'] extend those of [b]. *)
Definition grows (b b' : bus) : Prop :=
  exists h c, history b' = history b ++ h /\ console b' = console b ++ c.

(** A step in which [callback], if it is not registered under
    [eventName], stays so, and in which no [emit] calls it as a listener
    of [eventName]. *)
Definition stays_off (eventName : string) (callback : value) (b b' : bus)
  : Prop :=
  callback ∉ listenersOf eventName b ->
  (callback ∉ listenersOf eventName b') /\
  exists h, history b' = history b ++ h /\
    forall args, HCall eventName callback args ∉ h.

(** Whether a call throws.  Of the methods of the bus only [on] throws,
    and it does so for a callback that is not a function whatever the
    state of the bus ([emit] catches what its listeners throw); so whether
    a listener body ends by a throw is read off the body. *)
Fixpoint body_outcome (body : list action) : completion unit :=
  match body with
  | [] => Return tt
  | DoOn _ cb :: rest =>
      if is_function cb then body_outcome rest
      else Throw (Error "Callback must be a function")
  | DoThrow :: _ => Throw UserExn
  | _ :: rest => body_outcome rest
  end.

Fixpoint call_outcome (callback : value) (args : list Arg) : completion unit :=
  match callback with
  | VFunc id => body_outcome (code id args)
  | VOnce _ _ cb => call_outcome cb args
  | VOther => Throw (TypeError "callback is not a function")
  end.

Definition returns (callback : value) (args : list Arg) : bool :=
  match call_outcome callback args with Return _ => true | Throw _ => false end.

Definition thrown (callback : value) (args : list Arg) : option exn :=
  match call_outcome callback args with Return _ => None | Throw x => Some x end.

(** The user function that a call of [callback] enters: a wrapper made
    by [once] calls the callback it was given. *)
Fixpoint target (callback : value) : option nat :=
  match callback with
  | VFunc id => Some id
  | VOnce _ _ cb => target cb
  | VOther => None
  end.

Definition enter_mark (args : list Arg) (callback : value) : list hist_event :=
  match target callback with
  | Some id => [HEnter id args]
  | None => []
  end.

(** What an [emit(eventName, ...args)] that calls [listeners] in turn
    leaves in the history (each listener is called and its function
    entered) and in the console (one error for each one that throws). *)
Definition calls_of (eventName : string) (args : list Arg)
    (listeners : list value) : list hist_event :=
  listeners ≫= (fun cb => HCall eventName cb args :: enter_mark args cb).

Definition enters_of (args : list Arg) (listeners : list value)
  : list hist_event :=
  listeners ≫= enter_mark args.

Definition errors_of (eventName : string) (args : list Arg)
    (listeners : list value) : list console_entry :=
  omap (fun cb => ErrorInListener eventName <$> thrown cb args) listeners.

(** The calls of listeners and the entries into user functions in a
    history; the errors of listeners in a console. *)
Definition called (h : list hist_event) : list hist_event :=
  List.filter (fun x => match x with HCall _ _ _ => true | _ => false end) h.

Definition entered (h : list hist_event) : list hist_event :=
  List.filter (fun x => match x with HEnter _ _ => true | _ => false end) h.

Definition listener_errors (c : list console_entry) : list console_entry :=
  List.filter
    (fun x => match x with ErrorInListener _ _ => true | _ => false end) c.

(** A step that calls no listener, enters no user function and logs no
    error of a listener. *)
Definition quiet (b b' : bus) : Prop :=
  exists h c,
    history b' = history b ++ h /\ console b' = console b ++ c /\
    called h = [] /\ entered h = [] /\ listener_errors c = [].

(** [a] is the call [on(eventName, callback)]. *)
Definition subscribes (eventName : string) (callback : value) (a : action)
  : bool :=
  match a with
  | DoOn e cb => bool_decide (e = eventName /\ cb = callback)
  | _ => false
  end.

Definition never_subscribes (eventName : string) (callback : value)
    (body : list action) : bool :=
  forallb (fun a => negb (subscribes eventName callback a)) body.

End Bus.

(** A history in which a listener is called by an [emit] for [eventName]
    after an [off(eventName, callback)] that removed it has returned and
    before it is subscribed again. *)
Definition invoked_after_off {Arg} (h : list (@hist_event Arg)) : Prop :=
  exists i j e cb args,
    i < j /\
    h !! i = Some (HOff e cb true) /\
    h !! j = Some (HCall e cb args) /\
    forall k, i < k < j -> h !! k <> Some (HOn e cb true).

(** [this.events.has(eventName)] *)
Definition has {Arg} (eventName : string) (b : @bus Arg) : bool :=
  bool_decide (is_Some (events b !! eventName)).

(** No event name is registered with an empty array. *)
Definition no_empty_names {Arg} (b : @bus Arg) : Prop :=
  forall e l, events b !! e = Some l -> l <> [].

(** A step from [b] to [b'] keeps the cap, and registers no event name
    with an empty array when the cap is at least 1. *)
Definition keeps_names {Arg} (b b' : @bus Arg) : Prop :=
  maxListeners b' = maxListeners b /\
  (1 <= maxListeners b -> no_empty_names b -> no_empty_names b').

(** [setMaxListeners(max)] for an integer [max] (for which the test
    [typeof max !== 'number'] is false). *)
Definition setMaxListeners {Arg} (max : Z) (b : @bus Arg)
  : completion unit * @bus Arg :=
  if (max <? 1)%Z then
    (Throw (Error "Max listeners must be a positive number"), b)
  else
    (Return tt,
     Bus (events b) (Z.to_nat max) (nextWrapper b) (history b) (console b)).

(** *** Concrete programs used below *)

(** Function 0 unsubscribes function 1; function 1 does nothing. *)
Definition unsubscriber (id : nat) (args : list unit) : list (@action unit) :=
  match id with
  | 0 => [DoOff "e" (VFunc 1)]
  | _ => []
  end.

(** [bus.on('e', f0); bus.on('e', f1)] on a new bus. *)
Definition two_listeners : @bus unit :=
  (on "e" (VFunc 1) (on "e" (VFunc 0) new_EventBus).2).2.

(** Function 0 throws; the other functions do nothing. *)
Definition first_throws (id : nat) (args : list unit) : list (@action unit) :=
  match id with
  | 0 => [DoThrow]
  | _ => []
  end.

(** Every function throws. *)
Definition thrower (id : nat) (args : list unit) : list (@action unit) :=
  [DoThrow].

(** [bus.once('e', f0); bus.emit('e'); bus.emit('e')] *)
Definition once_then_two_emits : list (@action unit) :=
  [DoOnce "e" (VFunc 0); DoEmit "e" []; DoEmit "e" []].

(** Fifty subscriptions [bus.on('x', f_i)]. *)
Definition fifty_subscriptions : list (@action unit) :=
  (fun i => DoOn "x" (VFunc i)) <$> seq 0 50.

End EventBus.

(* ===================================================================== *)
(** * Storage service *)
(* ===================================================================== *)

Module Storage.

(** JSON-serializable values (numbers restricted to integers). *)
#[warnings="-register-all"] Inductive json : Type :=
  | JNull
  | JBool (b : bool)
  | JNumber (n : Z)
  | JString (s : string)
  | JArray (items : list json)
  | JObject (fields : list (string * json)).

(** JavaScript truthiness, as used by [||] and [? :]. *)
Definition truthy (v : json) : bool :=
  match v with
  | JNull => false
  | JBool b => b
  | JNumber n => negb (n =? 0)%Z
  | JString s => negb (String.eqb s "")
  | JArray _ | JObject _ => true
  end.

Definition truthy_string (s : string) : bool := negb (String.eqb s "").

Inductive console_entry : Type :=
  | ErrorGetting
  | ErrorSetting.

Record storage : Type := StorageState {
  isLocalStorageAvailable : bool;          (* this.isLocalStorageAvailable *)
  memoryStorage : gmap string json;        (* this.memoryStorage *)
  localStorage : gmap string string;       (* the browser's localStorage *)
  console : list console_entry
}.

Definition prefix : string := "dashboard_".

Definition set_memoryStorage (m : gmap string json) (st : storage) : storage :=
  StorageState (isLocalStorageAvailable st) m (localStorage st) (console st).
Definition set_localStorage (l : gmap string string) (st : storage) : storage :=
  StorageState (isLocalStorageAvailable st) (memoryStorage st) l (console st).
Definition log_console (c : console_entry) (st : storage) : storage :=
  StorageState (isLocalStorageAvailable st) (memoryStorage st) (localStorage st)
    (console st ++ [c]).

(** A session without a usable localStorage, and one with an empty one. *)
Definition new_memory_storage : storage := StorageState false ∅ ∅ [].
Definition new_local_storage : storage := StorageState true ∅ ∅ [].

Section Gateway.

(** The browser's [JSON.stringify] and [JSON.parse] ([None]: a
    [SyntaxError] is thrown), and whether [localStorage.setItem] accepts a
    write (otherwise it throws, e.g. when the quota is exceeded). *)
Variable JSON_stringify : json -> string.
Variable JSON_parse : string -> option json.
Variable accepts : gmap string string -> string -> string -> bool.

(** [getItem(key)] *)
Definition getItem (key : string) (st : storage) : json * storage :=
  let fullKey := prefix +:+ key in
  if isLocalStorageAvailable st then
    match localStorage st !! fullKey with
    | Some item =>
        if truthy_string item then
          match JSON_parse item with
          | Some v => (v, st)
          | None => (JNull, log_console ErrorGetting st)   (* catch *)
          end
        else (JNull, st)
    | None => (JNull, st)
    end
  else
    match memoryStorage st !! fullKey with
    | Some v => (if truthy v then v else JNull, st)   (* get(fullKey) || null *)
    | None => (JNull, st)
    end.

(** [setItem(key, value)] *)
Definition setItem (key : string) (value : json) (st : storage)
  : bool * storage :=
  let fullKey := prefix +:+ key in
  if isLocalStorageAvailable st then
    let item := JSON_stringify value in
    if accepts (localStorage st) fullKey item then
      (true, set_localStorage (<[fullKey := item]> (localStorage st)) st)
    else (false, log_console ErrorSetting st)             (* catch *)
  else
    (true, set_memoryStorage (<[fullKey := value]> (memoryStorage st)) st).

End Gateway.

(** [removeItem(key)] *)
Definition removeItem (key : string) (st : storage) : bool * storage :=
  let fullKey := prefix +:+ key in
  if isLocalStorageAvailable st then
    (true, set_localStorage (delete fullKey (localStorage st)) st)
  else
    (true, set_memoryStorage (delete fullKey (memoryStorage st)) st).

(** [keys.forEach(key => { if (key.startsWith(this.prefix)) localStorage.removeItem(key) })] *)
Definition remove_prefixed (keys : list string) (ls : gmap string string)
  : gmap string string :=
  foldl (fun ls key => if String.prefix prefix key then delete key ls else ls)
    ls keys.

(** [clear()]; [Object.keys(localStorage)] in some order. *)
Definition clear (st : storage) : bool * storage :=
  if isLocalStorageAvailable st then
    let keys := (map_to_list (localStorage st)).*1 in
    (true, set_localStorage (remove_prefixed keys (localStorage st)) st)
  else
    (true, set_memoryStorage ∅ st).

(** The object literal [getUserPreferences] falls back to. *)
Definition default_preferences : json :=
  JObject
    [("theme", JString "light");
     ("widgetOrder",
      JArray [JString "announcements"; JString "quickLaunch"; JString "tasks";
              JString "calendar"; JString "tickets"]);
     ("hiddenWidgets", JArray []);
     ("autoRefresh", JBool true);
     ("refreshInterval", JNumber 300000)].

(** [dismissed.includes(announcementId)] on an array, for a string id. *)
Definition includes_id (id : string) (items : list json) : bool :=
  existsb (fun x => match x with JString s => String.eqb s id | _ => false end)
    items.

Section Convenience.

Variable JSON_stringify : json -> string.
Variable JSON_parse : string -> option json.
Variable accepts : gmap string string -> string -> string -> bool.

(** [getUserPreferences()] *)
Definition getUserPreferences (st : storage) : json * storage :=
  let '(v, st') := getItem JSON_parse "user_preferences" st in
  (if truthy v then v else default_preferences, st').

(** [setUserPreferences(preferences)] *)
Definition setUserPreferences (preferences : json) (st : storage)
  : bool * storage :=
  setItem JSON_stringify accepts "user_preferences" preferences st.

(** [getDismissedAnnouncements()] *)
Definition getDismissedAnnouncements (st : storage) : json * storage :=
  let '(v, st') := getItem JSON_parse "dismissed_announcements" st in
  (if truthy v then v else JArray [], st').

(** [addDismissedAnnouncement(announcementId)] for a string id.  A stored
    string has [includes] (a substring test) but no [push]; other stored
    values that are not arrays have neither. *)
Definition addDismissedAnnouncement (announcementId : string) (st : storage)
  : completion bool * storage :=
  let '(dismissed, st1) := getDismissedAnnouncements st in
  match dismissed with
  | JArray items =>
      if includes_id announcementId items then (Return true, st1)
      else
        let '(ok, st2) :=
          setItem JSON_stringify accepts "dismissed_announcements"
            (JArray (items ++ [JString announcementId])) st1 in
        (Return ok, st2)
  | JString s =>
      match String.index 0 announcementId s with
      | Some _ => (Return true, st1)
      | None => (Throw (TypeError "dismissed.push is not a function"), st1)
      end
  | _ => (Throw (TypeError "dismissed.includes is not a function"), st1)
  end.

End Convenience.

(** Stand-ins for the browser's JSON functions where they are not used. *)
Definition no_stringify (v : json) : string := "null".
Definition no_parse (s : string) : option json := None.
Definition accept_all (ls : gmap string string) (k v : string) : bool := true.

End Storage.

(* ===================================================================== *)
(** * Real-time service (auto-refresh coordinator) *)
(* ===================================================================== *)

Module Realtime.

(** Insertion-ordered tables with unique keys: a JavaScript [Map] or the
    own properties of an object. *)
Section Table.
Context {V : Type}.

Fixpoint table_get (k : string) (t : list (string * V)) : option V :=
  match t with
  | [] => None
  | (k', v) :: t' => if String.eqb k k' then Some v else table_get k t'
  end.

Fixpoint table_set (k : string) (v : V) (t : list (string * V))
  : list (string * V) :=
  match t with
  | [] => [(k, v)]
  | (k', v') :: t' =>
      if String.eqb k k' then (k', v) :: t' else (k', v') :: table_set k v t'
  end.

Fixpoint table_delete (k : string) (t : list (string * V))
  : list (string * V) :=
  match t with
  | [] => []
  | (k', v') :: t' =>
      if String.eqb k k' then t' else (k', v') :: table_delete k t'
  end.

End Table.

(** A running [setInterval] timer: its id, the widget its callback asks
    to refresh and its period in milliseconds. *)
Record timer : Type := Timer {
  handle : positive;
  widget : string;
  period : Z
}.

Record service : Type := Service {
  intervals : list (string * positive);   (* this.intervals : Map *)
  isOnline : bool;                        (* this.isOnline *)
  refreshRates : list (string * Z);       (* this.refreshRates *)
  live : list timer;                      (* timers the browser is running *)
  nextHandle : positive;                  (* next id [setInterval] returns *)
  emitted : list string                   (* events sent to the event bus *)
}.

Definition set_intervals (i : list (string * positive)) (s : service) : service :=
  Service i (isOnline s) (refreshRates s) (live s) (nextHandle s) (emitted s).
Definition set_isOnline (o : bool) (s : service) : service :=
  Service (intervals s) o (refreshRates s) (live s) (nextHandle s) (emitted s).
Definition set_refreshRates (r : list (string * Z)) (s : service) : service :=
  Service (intervals s) (isOnline s) r (live s) (nextHandle s) (emitted s).
Definition set_live (l : list timer) (s : service) : service :=
  Service (intervals s) (isOnline s) (refreshRates s) l (nextHandle s) (emitted s).
Definition emit_event (e : string) (s : service) : service :=
  Service (intervals s) (isOnline s) (refreshRates s) (live s) (nextHandle s)
    (emitted s ++ [e]).

(** [clearInterval(id)] *)
Definition clearInterval (id : positive) (s : service) : service :=
  set_live (List.filter (fun t => negb (Pos.eqb (handle t) id)) (live s)) s.

(** [setInterval(callback, interval)], returning the new id. *)
Definition setInterval (widgetName : string) (interval : Z) (s : service)
  : positive * service :=
  (nextHandle s,
   Service (intervals s) (isOnline s) (refreshRates s)
     (live s ++ [Timer (nextHandle s) widgetName interval])
     (Pos.succ (nextHandle s)) (emitted s)).

(** [constructor(eventBus, storage)]; [onLine] is [navigator.onLine]. *)
Definition new_RealtimeService (onLine : bool) : service :=
  Service [] onLine
    [("announcements", 600000%Z); ("tasks", 300000%Z); ("calendar", 600000%Z);
     ("tickets", 300000%Z); ("shortcuts", 0%Z)]
    [] 1%positive [].

(** [stopWidgetRefresh(widgetName)] *)
Definition stopWidgetRefresh (widgetName : string) (s : service) : service :=
  match table_get widgetName (intervals s) with
  | Some intervalId =>
      let s1 := clearInterval intervalId s in
      set_intervals (table_delete widgetName (intervals s1)) s1
  | None => s
  end.

(** [startWidgetRefresh(widgetName, interval)] *)
Definition startWidgetRefresh (widgetName : string) (interval : Z) (s : service)
  : service :=
  let s1 := stopWidgetRefresh widgetName s in
  if negb (isOnline s1) || (interval <=? 0)%Z then s1
  else
    let '(intervalId, s2) := setInterval widgetName interval s1 in
    set_intervals (table_set widgetName intervalId (intervals s2)) s2.

(** [Object.entries(rates).forEach(([widget, interval]) => { if (interval > 0) ... })] *)
Definition start_each (rates : list (string * Z)) (s : service) : service :=
  fold_left
    (fun s '(widget, interval) =>
       if (0 <? interval)%Z then startWidgetRefresh widget interval s else s)
    rates s.

(** [startAutoRefresh()] *)
Definition startAutoRefresh (s : service) : service :=
  start_each (refreshRates s) s.

(** [ids.forEach((intervalId, widgetName) => { clearInterval(intervalId) })] *)
Definition clear_all (ids : list (string * positive)) (s : service) : service :=
  fold_left (fun s '(_, intervalId) => clearInterval intervalId s) ids s.

(** [pauseAutoRefresh()] *)
Definition pauseAutoRefresh (s : service) : service :=
  clear_all (intervals s) s.

(** [resumeAutoRefresh()] *)
Definition resumeAutoRefresh (s : service) : service :=
  startAutoRefresh (set_intervals [] s).

(** [setRefreshRate(widgetName, interval)] (the write to storage is left out). *)
Definition setRefreshRate (widgetName : string) (interval : Z) (s : service)
  : service :=
  let s1 := set_refreshRates (table_set widgetName interval (refreshRates s)) s in
  if (0 <? interval)%Z then startWidgetRefresh widgetName interval s1
  else stopWidgetRefresh widgetName s1.

(** The listeners installed by [setupNetworkListeners()]. *)
Definition handle_online (s : service) : service :=
  resumeAutoRefresh (emit_event "network:online" (set_isOnline true s)).
Definition handle_offline (s : service) : service :=
  pauseAutoRefresh (emit_event "network:offline" (set_isOnline false s)).

(** [destroy()] *)
Definition destroy (s : service) : service :=
  set_intervals [] (clear_all (intervals s) s).

(** The timers that are running, as (widget, period) pairs in the order in
    which they were started. *)
Definition active (s : service) : list (string * Z) :=
  (fun t => (widget t, period t)) <$> live s.

(** The timers the configuration asks for. *)
Definition configured (s : service) : list (string * Z) :=
  List.filter (fun '(_, interval) => (0 <? interval)%Z) (refreshRates s).

(** What can happen to the service: calls of its public methods and the
    browser's [online] and [offline] events.  [resumeAutoRefresh] is called
    by the [online] listener only. *)
Inductive call : Type :=
  | StartAutoRefresh
  | StartWidgetRefresh (widgetName : string) (interval : Z)
  | StopWidgetRefresh (widgetName : string)
  | PauseAutoRefresh
  | SetRefreshRate (widgetName : string) (interval : Z)
  | Online
  | Offline
  | Destroy.

Definition perform (c : call) (s : service) : service :=
  match c with
  | StartAutoRefresh => startAutoRefresh s
  | StartWidgetRefresh w i => startWidgetRefresh w i s
  | StopWidgetRefresh w => stopWidgetRefresh w s
  | PauseAutoRefresh => pauseAutoRefresh s
  | SetRefreshRate w i => setRefreshRate w i s
  | Online => handle_online s
  | Offline => handle_offline s
  | Destroy => destroy s
  end.

(** The browser reports [online] only when the connection had been lost. *)
Definition enabled (c : call) (s : service) : Prop :=
  match c with
  | Online => isOnline s = false
  | _ => True
  end.

Inductive reachable : service -> Prop :=
  | reachable_new onLine : reachable (new_RealtimeService onLine)
  | reachable_call c s :
      reachable s -> enabled c s -> reachable (perform c s).

(** Every running timer is recorded in [intervals]. *)
Definition tracked (s : service) : Prop :=
  forall t, t ∈ live s -> exists name, table_get name (intervals s) = Some (handle t).

(** Names are unique in both tables, running timers are recorded, and
    nothing runs while the service is offline. *)
Definition wf (s : service) : Prop :=
  NoDup (refreshRates s).*1 /\ NoDup (intervals s).*1 /\ tracked s /\
  (isOnline s = false -> live s = []).

(** The running timers that ask to refresh [name]. *)
Definition timers_of (name : string) (s : service) : list timer :=
  List.filter (fun t => String.eqb (widget t) name) (live s).

(** The timers of [l] that ask to refresh another widget than [name]. *)
Definition others (name : string) (l : list timer) : list timer :=
  List.filter (fun t => negb (String.eqb (widget t) name)) l.

(** Every running timer is recorded under the name of its own widget, and
    timer ids are not reused. *)
Definition one_timer (s : service) : Prop :=
  (forall t, t ∈ live s -> table_get (widget t) (intervals s) = Some (handle t)) /\
  (forall t, t ∈ live s -> (handle t < nextHandle s)%positive) /\
  NoDup (handle <$> live s) /\
  (forall k id, (k, id) ∈ intervals s -> (id < nextHandle s)%positive) /\
  NoDup (intervals s).*2.

(** The service after [init()] in an online browser, and the same after
    [stopWidgetRefresh('tasks')]. *)
Definition initialised : service := startAutoRefresh (new_RealtimeService true).
Definition tasks_stopped : service := stopWidgetRefresh "tasks" initialised.

End Realtime.

(* ===================================================================== *)
(** * Base widget *)
(* ===================================================================== *)

Module Widget.

(** What an assignment to [container.innerHTML] wrote. *)
Inductive html : Type :=
  | Blank                                   (* [''] *)
  | ErrorPanel (message : string)           (* icon, message, Retry button *)
  | EmptyPanel (message : string) (action : option string)
  | Markup (body : string).                 (* written by a subclass's [render] *)

(** The widget's container: the content that the last assignment to
    [innerHTML] wrote, followed by the [.element-loading] overlays that the
    loading manager has appended since (the content itself holds none). *)
Record element : Type := Element {
  innerHTML : html;
  loadingClass : bool;       (* ['widget--loading'] is in [classList] *)
  retryListeners : nat;      (* pending one-shot ['retry'] listeners *)
  overlays : list string;    (* [data-loader-id] of each overlay, oldest first *)
  positionStatic : bool      (* the computed [position] is ['static'] *)
}.

(** [element.innerHTML = h]: every child is replaced, the overlays too. *)
Definition assign_innerHTML (h : html) (c : element) : element :=
  Element h (loadingClass c) (retryListeners c) [] (positionStatic c).

(** Effects on the widget's collaborators, oldest first. *)
Inductive effect : Type :=
  | ConsoleLog (line : string)
  | ConsoleError (e : exn)
  | ShowElementLoading          (* services.loading.showElementLoading is called *)
  | HideElementLoading          (* services.loading.hideElementLoading is called *)
  | Emit (eventName : string) (widgetName : string) (error : option exn)
  | CallLoadData                (* this.loadData() is called *)
  | CallRender                  (* this.render() is called *)
  | RemoveResizeListener.

(** A widget together with the part of the browser it acts on.  The
    container is an element: the application constructs a widget only for
    a container it has found. *)
Record widget : Type := WidgetState {
  name : string;                        (* this.constructor.name *)
  container : element;                  (* this.container *)
  isInitialized : bool;
  isLoading : bool;
  refreshInterval : option positive;    (* id of the refresh timer, or null *)
  autoRefreshEnabled : bool;
  refreshIntervalMs : Z;
  timers : list positive;               (* timers the browser is running *)
  nextHandle : positive;                (* next id [setInterval] returns *)
  awaiting : nat;                       (* [refresh] calls suspended at [await this.loadData()] *)
  effects : list effect;
  activeLoaders : list string           (* services.loading.activeLoaders, a [Set] *)
}.

Definition set_container (c : element) (w : widget) : widget :=
  WidgetState (name w) c (isInitialized w) (isLoading w) (refreshInterval w)
    (autoRefreshEnabled w) (refreshIntervalMs w) (timers w) (nextHandle w)
    (awaiting w) (effects w) (activeLoaders w).
Definition set_isInitialized (b : bool) (w : widget) : widget :=
  WidgetState (name w) (container w) b (isLoading w) (refreshInterval w)
    (autoRefreshEnabled w) (refreshIntervalMs w) (timers w) (nextHandle w)
    (awaiting w) (effects w) (activeLoaders w).
Definition set_isLoading (b : bool) (w : widget) : widget :=
  WidgetState (name w) (container w) (isInitialized w) b (refreshInterval w)
    (autoRefreshEnabled w) (refreshIntervalMs w) (timers w) (nextHandle w)
    (awaiting w) (effects w) (activeLoaders w).
Definition set_refreshInterval (r : option positive) (w : widget) : widget :=
  WidgetState (name w) (container w) (isInitialized w) (isLoading w) r
    (autoRefreshEnabled w) (refreshIntervalMs w) (timers w) (nextHandle w)
    (awaiting w) (effects w) (activeLoaders w).
Definition set_autoRefreshEnabled (b : bool) (w : widget) : widget :=
  WidgetState (name w) (container w) (isInitialized w) (isLoading w)
    (refreshInterval w) b (refreshIntervalMs w) (timers w) (nextHandle w)
    (awaiting w) (effects w) (activeLoaders w).
Definition set_refreshIntervalMs (ms : Z) (w : widget) : widget :=
  WidgetState (name w) (container w) (isInitialized w) (isLoading w)
    (refreshInterval w) (autoRefreshEnabled w) ms (timers w) (nextHandle w)
    (awaiting w) (effects w) (activeLoaders w).
Definition set_timers (t : list positive) (n : positive) (w : widget) : widget :=
  WidgetState (name w) (container w) (isInitialized w) (isLoading w)
    (refreshInterval w) (autoRefreshEnabled w) (refreshIntervalMs w) t n
    (awaiting w) (effects w) (activeLoaders w).
Definition set_awaiting (n : nat) (w : widget) : widget :=
  WidgetState (name w) (container w) (isInitialized w) (isLoading w)
    (refreshInterval w) (autoRefreshEnabled w) (refreshIntervalMs w)
    (timers w) (nextHandle w) n (effects w) (activeLoaders w).
Definition set_activeLoaders (a : list string) (w : widget) : widget :=
  WidgetState (name w) (container w) (isInitialized w) (isLoading w)
    (refreshInterval w) (autoRefreshEnabled w) (refreshIntervalMs w)
    (timers w) (nextHandle w) (awaiting w) (effects w) a.
Definition perform (e : effect) (w : widget) : widget :=
  WidgetState (name w) (container w) (isInitialized w) (isLoading w)
    (refreshInterval w) (autoRefreshEnabled w) (refreshIntervalMs w)
    (timers w) (nextHandle w) (awaiting w) (effects w ++ [e])
    (activeLoaders w).

(** [constructor(container, services)], with a loading manager that has
    no active loader. *)
Definition new_BaseWidget (className : string) (container : element) : widget :=
  WidgetState className container false false None true 300000%Z [] 1%positive
    0 [] [].

(** [Set.prototype.add] and [Set.prototype.delete] on [activeLoaders]. *)
Definition set_add (x : string) (l : list string) : list string :=
  if bool_decide (x ∈ l) then l else l ++ [x].
Definition set_delete (x : string) (l : list string) : list string :=
  List.filter (fun y => negb (String.eqb y x)) l.

(** [LoadingManager.showElementLoading(element, message)], called with the
    container; [loaderId] is what [generateLoaderId()] returns in this call
    (a string made of the clock and a random number).  An overlay with
    that id is appended to the container, a container whose position was
    static is made relative, and the id is added to [activeLoaders]. *)
Definition showElementLoading (loaderId : string) (w : widget)
  : string * widget :=
  let w1 := perform ShowElementLoading w in
  let c := container w1 in
  let w2 :=
    set_container
      (Element (innerHTML c) (loadingClass c) (retryListeners c)
         (overlays c ++ [loaderId]) false) w1 in
  (loaderId, set_activeLoaders (set_add loaderId (activeLoaders w2)) w2).

(** [LoadingManager.hideElementLoading(element)], called with the
    container and no loader id: every overlay in the container is
    removed, and its id, unless it is the empty string, is deleted from
    [activeLoaders]. *)
Definition hideElementLoading (w : widget) : widget :=
  let w1 := perform HideElementLoading w in
  let c := container w1 in
  let remaining :=
    foldl (fun a id => match id with
                       | "" => a
                       | _ => set_delete id a
                       end) (activeLoaders w1) (overlays c) in
  set_activeLoaders remaining
    (set_container
       (Element (innerHTML c) (loadingClass c) (retryListeners c) []
          (positionStatic c)) w1).

(** [setLoadingState(isLoading)]; [loaderId] is the id the loading
    manager generates when it is asked to show the overlay. *)
Definition setLoadingState (loading : bool) (loaderId : string) (w : widget)
  : widget :=
  let w1 := set_isLoading loading w in
  let c := container w1 in
  if loading then
    (showElementLoading loaderId
       (set_container
          (Element (innerHTML c) true (retryListeners c) (overlays c)
             (positionStatic c)) w1)).2
  else
    hideElementLoading
      (set_container
         (Element (innerHTML c) false (retryListeners c) (overlays c)
            (positionStatic c)) w1).

(** [error.message] of a thrown value that is not [null] or [undefined]
    (the empty string stands for a value without a message). *)
Definition message_of (e : exn) : string :=
  match e with
  | Error m | TypeError m => m
  | UserExn | Nullish => ""
  end.

(** [showErrorState(message)] *)
Definition showErrorState (message : string) (w : widget) : widget :=
  let c := assign_innerHTML (ErrorPanel message) (container w) in
  set_container
    (Element (innerHTML c) (loadingClass c) (S (retryListeners c)) (overlays c)
       (positionStatic c)) w.

(** [error.message || 'An error occurred while loading data'] *)
Definition shown_message (error : exn) : string :=
  match message_of error with
  | "" => "An error occurred while loading data"
  | m => m
  end.

(** [handleError(error)]: reading [error.message] throws a [TypeError]
    when [error] is [null] or [undefined], after the event has been
    emitted and before the error panel is written. *)
Definition handleError (error : exn) (w : widget) : completion unit * widget :=
  let w1 := perform (ConsoleError error) w in
  let w2 := perform (Emit "widget:error" (name w1) (Some error)) w1 in
  match error with
  | Nullish =>
      (Throw (TypeError "Cannot read properties of null (reading 'message')"),
       w2)
  | _ => (Return tt, showErrorState (shown_message error) w2)
  end.

(** How [await this.loadData()] settles, and what [this.render()] does:
    the widgets of the application render by assigning
    [container.innerHTML]; a [render] that throws is taken to throw before
    it writes. *)
Inductive load_outcome : Type :=
  | Resolved
  | Rejected (error : exn).

Inductive render_outcome : Type :=
  | Rendered (body : string)
  | RenderThrows (error : exn).

Inductive refresh_status : Type :=
  | Skipped      (* returned at once: the widget is already loading *)
  | Suspended.   (* waiting for [loadData] *)

(** [refresh()], from its call to [await this.loadData()]. *)
Definition refresh_call (loaderId : string) (w : widget)
  : refresh_status * widget :=
  if isLoading w then
    (Skipped,
     perform (ConsoleLog (name w +:+ " is already loading, skipping refresh")) w)
  else
    let w1 := setLoadingState true loaderId w in
    let w2 := perform CallLoadData w1 in
    (Suspended, set_awaiting (S (awaiting w2)) w2).

(** [refresh()], from the moment [loadData] has settled to its end:
    the rest of the [try] block, the [catch] and the [finally].  What
    [handleError] throws in the [catch] block is thrown by [refresh()]
    after the [finally] block has run. *)
Definition refresh_resume (l : load_outcome) (r : render_outcome) (w : widget)
  : completion unit * widget :=
  let w0 := set_awaiting (pred (awaiting w)) w in
  let '(c, w1) :=
    match l with
    | Resolved =>
        let w' := perform CallRender w0 in
        match r with
        | Rendered body =>
            (Return tt,
             perform (Emit "widget:refreshed" (name w') None)
               (set_container
                  (assign_innerHTML (Markup body) (container w')) w'))
        | RenderThrows error => handleError error w'
        end
    | Rejected error => handleError error w0
    end in
  (c, setLoadingState false "" w1).

(** [clearInterval(id)] and [setInterval(this.refresh, ms)] *)
Definition clearInterval (id : positive) (w : widget) : widget :=
  set_timers (List.filter (fun h => negb (Pos.eqb h id)) (timers w))
    (nextHandle w) w.
Definition setInterval (w : widget) : positive * widget :=
  (nextHandle w,
   set_timers (timers w ++ [nextHandle w]) (Pos.succ (nextHandle w)) w).

(** [stopAutoRefresh()] *)
Definition stopAutoRefresh (w : widget) : widget :=
  match refreshInterval w with
  | Some id =>
      perform (ConsoleLog "Auto-refresh stopped")
        (set_refreshInterval None (clearInterval id w))
  | None => w
  end.

(** [startAutoRefresh()] *)
Definition startAutoRefresh (w : widget) : widget :=
  let w1 := match refreshInterval w with
            | Some _ => stopAutoRefresh w
            | None => w
            end in
  if autoRefreshEnabled w1 && (0 <? refreshIntervalMs w1)%Z then
    let '(id, w2) := setInterval w1 in
    perform (ConsoleLog "Auto-refresh started")
      (set_refreshInterval (Some id) w2)
  else w1.

(** [setAutoRefreshInterval(intervalMs)] *)
Definition setAutoRefreshInterval (intervalMs : Z) (w : widget) : widget :=
  let w1 := set_refreshIntervalMs intervalMs w in
  match refreshInterval w1 with
  | Some _ => startAutoRefresh (stopAutoRefresh w1)
  | None => w1
  end.

(** [setAutoRefresh(enabled)] *)
Definition setAutoRefresh (enabled : bool) (w : widget) : widget :=
  let w1 := set_autoRefreshEnabled enabled w in
  if enabled then startAutoRefresh w1 else stopAutoRefresh w1.

(** [destroy()] *)
Definition destroy (w : widget) : completion unit * widget :=
  let w1 := perform (ConsoleLog "Destroying") w in
  let w2 := stopAutoRefresh w1 in
  let w3 := perform RemoveResizeListener w2 in
  let w4 := set_container (assign_innerHTML Blank (container w3)) w3 in
  (Return tt, set_isInitialized false w4).

(** What happens to a widget over time. *)
Inductive event : Type :=
  | Refresh (loaderId : string)   (* a call of [refresh()]: timer tick, retry, orchestrator *)
  | Settle (l : load_outcome) (r : render_outcome)
                                  (* a pending [loadData] settles *)
  | StartAutoRefresh
  | StopAutoRefresh
  | SetAutoRefreshInterval (intervalMs : Z)
  | SetAutoRefresh (enabled : bool)
  | DestroyWidget.

(** [None]: the event cannot happen (nothing is waiting to settle). *)
Definition step (ev : event) (w : widget) : option widget :=
  match ev with
  | Refresh loaderId => Some (refresh_call loaderId w).2
  | Settle l r =>
      match awaiting w with
      | 0 => None
      | S _ => Some (refresh_resume l r w).2
      end
  | StartAutoRefresh => Some (startAutoRefresh w)
  | StopAutoRefresh => Some (stopAutoRefresh w)
  | SetAutoRefreshInterval ms => Some (setAutoRefreshInterval ms w)
  | SetAutoRefresh b => Some (setAutoRefresh b w)
  | DestroyWidget => Some (destroy w).2
  end.

Fixpoint run (evs : list event) (w : widget) : option widget :=
  match evs with
  | [] => Some w
  | ev :: rest =>
      match step ev w with
      | Some w' => run rest w'
      | None => None
      end
  end.

(** The only running timer is the one in [refreshInterval]. *)
Definition owned (w : widget) : Prop :=
  match refreshInterval w with
  | Some id => forall h, h ∈ timers w -> h = id
  | None => timers w = []
  end.

(** A refresh is waiting exactly when the widget is loading, and the
    widget owns its timer. *)
Definition inv (w : widget) : Prop :=
  awaiting w = (if isLoading w then 1 else 0) /\ owned w.

(** The loading indicator calls and the error events among [effects]. *)
Definition loading_calls (es : list effect) : list effect :=
  List.filter
    (fun e => match e with
              | ShowElementLoading | HideElementLoading => true
              | _ => false
              end) es.

Definition error_events (es : list effect) : list effect :=
  List.filter
    (fun e => match e with
              | Emit "widget:error" _ _ => true
              | _ => false
              end) es.

Definition loadData_calls (es : list effect) : nat :=
  length (List.filter
            (fun e => match e with CallLoadData => true | _ => false end) es).

(** The browser runs exactly the timer whose id the widget holds. *)
Definition only_timer (w : widget) : Prop :=
  timers w = match refreshInterval w with Some id => [id] | None => [] end.

(** The refresh timer, when there is one, is the only running timer, and
    it runs only while auto-refresh is enabled with a positive interval. *)
Definition timer_inv (w : widget) : Prop :=
  timers w = match refreshInterval w with Some id => [id] | None => [] end /\
  (is_Some (refreshInterval w) ->
   autoRefreshEnabled w = true /\ (0 < refreshIntervalMs w)%Z).

(** What [formatRelativeTime] returns: ['Just now'], a count with a unit
    (with a plural [s] or not) followed by [ago], or the formatted date. *)
Inductive time_unit : Type := Minute | Hour | Day.

Inductive relative_time : Type :=
  | JustNow
  | Ago (n : Z) (unit : time_unit) (plural : bool)
  | FormattedDate.

(** [formatRelativeTime(dateString)], as a function of [now - date] in
    milliseconds, for a date that parses. *)
Definition formatRelativeTime (diffMs : Z) : relative_time :=
  let diffMins := (diffMs / 60000)%Z in
  let diffHours := (diffMins / 60)%Z in
  let diffDays := (diffHours / 24)%Z in
  if (diffMins <? 1)%Z then JustNow
  else if (diffMins <? 60)%Z then
    Ago diffMins Minute (negb (diffMins =? 1)%Z)
  else if (diffHours <? 24)%Z then
    Ago diffHours Hour (negb (diffHours =? 1)%Z)
  else if (diffDays <? 7)%Z then
    Ago diffDays Day (negb (diffDays =? 1)%Z)
  else FormattedDate.

(** A widget named [TasksWidget] on an empty container, with its timer
    started and a refresh under way. *)
Definition empty_container : element := Element Blank false 0 [] true.
Definition tasks_widget : widget :=
  new_BaseWidget "TasksWidget" empty_container.
Definition tasks_widget_busy : widget :=
  (refresh_call "loader_1" (startAutoRefresh tasks_widget)).2.

End Widget.

(* ===================================================================== *)
(** * Properties of the event bus *)
(* ===================================================================== *)

Module EventBusFacts.
Import EventBus.

Section Facts.

Context {Arg : Type}.
Variable code : nat -> list Arg -> list (@action Arg).
Abbreviation bus := (@bus Arg).

(** ** A relation kept by every bus operation is kept by [emit] *)

Section Preserved.

Variable R : bus -> bus -> Prop.
Hypothesis R_refl : forall b, R b b.
Hypothesis R_trans : forall b1 b2 b3, R b1 b2 -> R b2 b3 -> R b1 b3.
Hypothesis R_on : forall e cb b, R b (on e cb b).2.
Hypothesis R_alloc : forall b, R b (alloc_wrapper b).
Hypothesis R_off : forall e cb b, R b (off e cb b).2.
Hypothesis R_removeAll : forall e b, R b (removeAllListeners e b).2.
Hypothesis R_history : forall h b, R b (log_history h b).
Hypothesis R_console : forall c b, R b (log_console c b).

Lemma once_R e cb b : R b (once e cb b).2.
Proof. unfold once. eapply R_trans; [apply R_alloc | apply R_on]. Qed.

Lemma run_body_R emit_rec :
  (forall e args b r b', emit_rec e args b = Some (r, b') -> R b b') ->
  forall body b c b', run_body emit_rec body b = Some (c, b') -> R b b'.
Proof.
  intros Hrec body.
  induction body as [|a rest IH]; intros b c b' H; simpl in H.
  - inversion H; subst. apply R_refl.
  - destruct a as [e cb|e cb|e cb|e|e args|].
    + pose proof (R_on e cb b) as Hon.
      destruct (on e cb b) as [[ok|x] b1]; simpl in Hon.
      * eapply R_trans; [exact Hon | eapply IH; eauto].
      * inversion H; subst. exact Hon.
    + pose proof (once_R e cb b) as Hon.
      destruct (once e cb b) as [[ok|x] b1]; simpl in Hon.
      * eapply R_trans; [exact Hon | eapply IH; eauto].
      * inversion H; subst. exact Hon.
    + eapply R_trans; [apply (R_off e cb) | eapply IH; eauto].
    + eapply R_trans; [apply (R_removeAll e) | eapply IH; eauto].
    + destruct (emit_rec e args b) as [[r b1]|] eqn:E; [|discriminate].
      eapply R_trans; [eapply Hrec; eauto | eapply IH; eauto].
    + inversion H; subst. apply R_refl.
Qed.

Lemma call_R emit_rec :
  (forall e args b r b', emit_rec e args b = Some (r, b') -> R b b') ->
  forall cb args b c b', call code emit_rec cb args b = Some (c, b') -> R b b'.
Proof.
  intros Hrec cb.
  induction cb as [id|uid e cb IH|]; intros args b c b' H; simpl in H.
  - eapply R_trans; [apply R_history | eapply run_body_R; eauto].
  - destruct (call code emit_rec cb args b) as [[[u|x] b1]|] eqn:E;
      [| |discriminate]; inversion H; subst.
    + eapply R_trans; [eapply IH; eauto | apply R_off].
    + eapply IH; eauto.
  - inversion H; subst. apply R_refl.
Qed.

Lemma forEach_listener_R emit_rec :
  (forall e args b r b', emit_rec e args b = Some (r, b') -> R b b') ->
  forall e args ls n seen b n' seen' b',
    forEach_listener code emit_rec e args ls n seen b = Some (n', seen', b') ->
    R b b'.
Proof.
  intros Hrec e args ls.
  induction ls as [|cb rest IH]; intros n seen b n' seen' b' H; simpl in H.
  - inversion H; subst. apply R_refl.
  - destruct (call code emit_rec cb args (log_history (HCall e cb args) b))
      as [[[u|x] b1]|] eqn:E; [| |discriminate].
    + eapply R_trans; [apply R_history|].
      eapply R_trans; [eapply call_R; eauto | eapply IH; eauto].
    + eapply R_trans; [apply R_history|].
      eapply R_trans; [eapply call_R; eauto |].
      eapply R_trans; [apply R_console | eapply IH; eauto].
Qed.

Lemma emit_R fuel :
  forall e args b r b', emit code fuel e args b = Some (r, b') -> R b b'.
Proof.
  induction fuel as [|fuel IH]; intros e args b r b' H; simpl in H.
  - discriminate.
  - destruct (events b !! e) as [ls|].
    + destruct (forEach_listener code (emit code fuel) e args ls 0 [] b)
        as [[[n seen] b1]|] eqn:E; [|discriminate].
      inversion H; subst. eapply forEach_listener_R; eauto.
    + inversion H; subst. apply R_refl.
Qed.

End Preserved.

(** ** What [on], [once] and [off] do to the registry *)

Lemma listenerCount_length e (b : bus) :
  listenerCount e b = length (listenersOf e b).
Proof. unfold listenerCount, listenersOf. by destruct (events b !! e). Qed.

Lemma on_not_function e cb (b : bus) :
  is_function cb = false ->
  on e cb b = (Throw (Error "Callback must be a function"), b).
Proof. intros H. unfold on. by rewrite H. Qed.

Lemma on_function e cb (b : bus) :
  is_function cb = true ->
  maxListeners (on e cb b).2 = maxListeners b /\
  ((maxListeners b <= listenerCount e b /\
    (on e cb b).1 = Return false /\
    (forall e', listenersOf e' (on e cb b).2 = listenersOf e' b) /\
    WarnMaxListeners (maxListeners b) e ∈ console (on e cb b).2)
   \/
   (listenerCount e b < maxListeners b /\
    (on e cb b).1 = Return true /\
    listenersOf e (on e cb b).2 = listenersOf e b ++ [cb] /\
    (forall e', e' <> e -> listenersOf e' (on e cb b).2 = listenersOf e' b))).
Proof.
  intros Hf. unfold on, listenerCount, listenersOf. rewrite Hf. simpl.
  destruct (events b !! e) as [ls|] eqn:E; simpl.
  - rewrite E. simpl.
    destruct (Nat.leb_spec (maxListeners b) (length ls)); simpl.
    + split; [done|]. left. repeat split; try done.
      apply elem_of_app. right. left.
    + split; [done|]. right. repeat split; try done.
      * by rewrite lookup_insert_eq.
      * intros e' Hne. by rewrite lookup_insert_ne.
  - rewrite lookup_insert_eq. simpl.
    destruct (Nat.leb_spec (maxListeners b) 0); simpl.
    + split; [done|]. left. repeat split; try done.
      * intros e'. destruct (decide (e = e')) as [<-|Hne].
        -- by rewrite lookup_insert_eq, E.
        -- by rewrite lookup_insert_ne.
      * apply elem_of_app. right. left.
    + split; [done|]. right. repeat split; try done.
      * by rewrite lookup_insert_eq.
      * intros e' Hne. by rewrite !lookup_insert_ne.
Qed.

Lemma once_returns e cb (b : bus) :
  maxListeners (once e cb b).2 = maxListeners b /\
  ((maxListeners b <= listenerCount e b /\
    (once e cb b).1 = Return false /\
    (forall e', listenersOf e' (once e cb b).2 = listenersOf e' b) /\
    WarnMaxListeners (maxListeners b) e ∈ console (once e cb b).2)
   \/
   (listenerCount e b < maxListeners b /\
    (once e cb b).1 = Return true /\
    listenersOf e (once e cb b).2
      = listenersOf e b ++ [VOnce (nextWrapper b) e cb] /\
    (forall e', e' <> e -> listenersOf e' (once e cb b).2 = listenersOf e' b))).
Proof.
  unfold once.
  exact (on_function e (VOnce (nextWrapper b) e cb) (alloc_wrapper b) eq_refl).
Qed.

Lemma indexOf_None x l : indexOf x l = None <-> x ∉ l.
Proof.
  induction l as [|y l IH]; simpl.
  - split; [intros _; apply not_elem_of_nil | done].
  - rewrite not_elem_of_cons. destruct (decide (x = y)) as [->|Hne].
    + split; [discriminate | intros [? _]; done].
    + destruct (indexOf x l); simpl.
      * split; [discriminate|]. intros [_ H]. by apply IH in H.
      * split; [|done]. intros _. split; [done | by apply IH].
Qed.

Lemma indexOf_Some x l i :
  indexOf x l = Some i ->
  l !! i = Some x /\
  count_occ value_eq_dec (delete i l) x = pred (count_occ value_eq_dec l x) /\
  length (delete i l) = pred (length l).
Proof.
  revert i. induction l as [|y l IH]; simpl; intros i H; [discriminate|].
  destruct (decide (x = y)) as [->|Hne].
  - inversion H; subst. simpl. by destruct (value_eq_dec y y).
  - destruct (indexOf x l) as [j|] eqn:E; simpl in H; [|discriminate].
    inversion H; subst. destruct (IH j eq_refl) as (H1 & H2 & H3).
    simpl. split; [done|].
    destruct (value_eq_dec y x) as [->|_]; [done|]. split; [done|].
    rewrite H3. apply lookup_lt_Some in H1. lia.
Qed.

Lemma listenersOf_off e cb (b : bus) :
  ((off e cb b).1 = false /\ (cb ∉ listenersOf e b) /\
   forall e', listenersOf e' (off e cb b).2 = listenersOf e' b)
  \/
  (exists i, (off e cb b).1 = true /\ indexOf cb (listenersOf e b) = Some i /\
     listenersOf e (off e cb b).2 = delete i (listenersOf e b) /\
     forall e', e' <> e -> listenersOf e' (off e cb b).2 = listenersOf e' b).
Proof.
  unfold off, listenersOf. destruct (events b !! e) as [ls|] eqn:E; simpl.
  - destruct (indexOf cb ls) as [i|] eqn:Ei; simpl.
    + right. exists i. unfold splice1. repeat split; try done.
      * destruct (delete i ls); simpl.
        -- by rewrite lookup_delete_eq.
        -- by rewrite lookup_insert_eq.
      * intros e' Hne. destruct (delete i ls); simpl.
        -- by rewrite lookup_delete_ne.
        -- by rewrite lookup_insert_ne.
    + left. repeat split; try done. by apply indexOf_None.
  - left. repeat split; try done. apply not_elem_of_nil.
Qed.

Lemma listenersOf_removeAll e (b : bus) e' :
  listenersOf e' (removeAllListeners e b).2 = listenersOf e' b \/
  listenersOf e' (removeAllListeners e b).2 = [].
Proof.
  unfold removeAllListeners, listenersOf.
  destruct e as [[|a s]|]; simpl; try (right; by rewrite lookup_empty).
  destruct (decide (String a s = e')) as [<-|Hne].
  - right. by rewrite lookup_delete_eq.
  - left. by rewrite lookup_delete_ne.
Qed.

(** ** The listener cap *)

Lemma on_keeps_cap e cb (b : bus) : keeps_cap b (on e cb b).2.
Proof.
  destruct (is_function cb) eqn:Hf.
  - destruct (on_function e cb b Hf) as [Hm H]. split; [done|].
    intros Hcap e'. rewrite Hm, listenerCount_length.
    destruct H as [(_ & _ & Hsame & _)|(Hlt & _ & He & Hother)].
    + rewrite Hsame, <- listenerCount_length. apply Hcap.
    + destruct (decide (e' = e)) as [->|Hne].
      * rewrite He, length_app, <- listenerCount_length. simpl. lia.
      * rewrite Hother, <- listenerCount_length by done. apply Hcap.
  - by rewrite on_not_function.
Qed.

Lemma off_keeps_cap e cb (b : bus) : keeps_cap b (off e cb b).2.
Proof.
  split.
  - unfold off. destruct (events b !! e) as [ls|]; [|done].
    destruct (indexOf cb ls); [|done]. simpl. by destruct (splice1 n ls).
  - intros Hcap e'. rewrite listenerCount_length.
    assert (maxListeners (off e cb b).2 = maxListeners b) as ->.
    { unfold off. destruct (events b !! e) as [ls|]; [|done].
      destruct (indexOf cb ls); [|done]. simpl. by destruct (splice1 n ls). }
    destruct (listenersOf_off e cb b)
      as [(_ & _ & Hsame)|(i & _ & Hi & He & Hother)].
    + rewrite Hsame, <- listenerCount_length. apply Hcap.
    + destruct (decide (e' = e)) as [->|Hne].
      * rewrite He. apply indexOf_Some in Hi as (_ & _ & ->).
        specialize (Hcap e). rewrite listenerCount_length in Hcap. lia.
      * rewrite Hother, <- listenerCount_length by done. apply Hcap.
Qed.

Lemma removeAll_keeps_cap e (b : bus) : keeps_cap b (removeAllListeners e b).2.
Proof.
  split.
  - by destruct e as [[|a s]|].
  - intros Hcap e'. rewrite listenerCount_length.
    assert (maxListeners (removeAllListeners e b).2 = maxListeners b) as ->
      by by destruct e as [[|a s]|].
    destruct (listenersOf_removeAll e b e') as [-> | ->]; simpl; [|lia].
    rewrite <- listenerCount_length. apply Hcap.
Qed.

Lemma emit_keeps_cap fuel e args (b : bus) r b' :
  emit code fuel e args b = Some (r, b') -> keeps_cap b b'.
Proof.
  apply emit_R.
  - by split.
  - intros b1 b2 b3 [H1 H1'] [H2 H2']. split; [congruence | auto].
  - apply on_keeps_cap.
  - by split.
  - apply off_keeps_cap.
  - apply removeAll_keeps_cap.
  - by split.
  - by split.
Qed.

Lemma program_keeps_cap fuel prog (b : bus) c b' :
  run_body (emit code fuel) prog b = Some (c, b') -> keeps_cap b b'.
Proof.
  apply run_body_R.
  - by split.
  - intros b1 b2 b3 [H1 H1'] [H2 H2']. split; [congruence | auto].
  - apply on_keeps_cap.
  - by split.
  - apply off_keeps_cap.
  - apply removeAll_keeps_cap.
  - intros e0 args0 b0 r0 b0'. apply emit_keeps_cap.
Qed.

(** ** Termination: without re-entrant emits one unit of fuel is enough *)

Lemma run_body_total emit_rec (body : list (@action Arg)) :
  forallb (fun a => negb (emits a)) body = true ->
  forall b : bus, is_Some (run_body emit_rec body b).
Proof.
  induction body as [|a rest IH]; simpl; intros H b; [eauto|].
  apply andb_prop in H as [Ha H].
  destruct a; simpl in Ha; try discriminate; try (by apply IH); eauto.
  - destruct (on eventName callback b) as [[?|?] ?]; eauto.
  - destruct (once eventName callback b) as [[?|?] ?]; eauto.
Qed.

Lemma call_total emit_rec :
  no_reentrant_emit code ->
  forall cb args b, is_Some (call code emit_rec cb args b).
Proof.
  intros Hne cb. induction cb as [id|uid e cb IH|]; intros args b; simpl.
  - by apply run_body_total.
  - destruct (IH args b) as [[[u|x] b1] ->]; eauto.
  - eauto.
Qed.

Lemma forEach_listener_total emit_rec e args ls :
  no_reentrant_emit code ->
  forall n seen b, is_Some (forEach_listener code emit_rec e args ls n seen b).
Proof.
  intros Hne. induction ls as [|cb rest IH]; intros n seen b; simpl; [eauto|].
  destruct (call_total emit_rec Hne cb args (log_history (HCall e cb args) b))
    as [[[u|x] b1] ->]; apply IH.
Qed.

Lemma emit_total fuel e args (b : bus) :
  no_reentrant_emit code -> is_Some (emit code (S fuel) e args b).
Proof.
  intros Hne. simpl. destruct (events b !! e) as [ls|]; [|eauto].
  destruct (forEach_listener_total (emit code fuel) e args ls Hne 0 [] b)
    as [[[n seen] b1] ->]. eauto.
Qed.

(** ** More fuel does not change what [emit] returns *)

Lemma run_body_more_fuel rec1 rec2 :
  (forall e args (b : bus) x, rec1 e args b = Some x -> rec2 e args b = Some x) ->
  forall body b x,
    run_body rec1 body b = Some x -> run_body rec2 body b = Some x.
Proof.
  intros Hext body. induction body as [|a rest IH]; intros b x; simpl; [done|].
  destruct a as [e cb|e cb|e cb|e|e args|]; try done; try apply IH.
  - destruct (on e cb b) as [[?|?] ?]; [apply IH | done].
  - destruct (once e cb b) as [[?|?] ?]; [apply IH | done].
  - destruct (rec1 e args b) as [[r b1]|] eqn:E; [|done].
    rewrite (Hext _ _ _ _ E). apply IH.
Qed.

Lemma call_more_fuel rec1 rec2 :
  (forall e args (b : bus) x, rec1 e args b = Some x -> rec2 e args b = Some x) ->
  forall cb args b x,
    call code rec1 cb args b = Some x -> call code rec2 cb args b = Some x.
Proof.
  intros Hext cb. induction cb as [id|uid e cb IH|]; intros args b x; simpl.
  - by apply run_body_more_fuel.
  - destruct (call code rec1 cb args b) as [[c b1]|] eqn:E; [|done].
    by rewrite (IH _ _ _ E).
  - done.
Qed.

Lemma forEach_listener_more_fuel rec1 rec2 :
  (forall e args (b : bus) x, rec1 e args b = Some x -> rec2 e args b = Some x) ->
  forall e args ls n seen b x,
    forEach_listener code rec1 e args ls n seen b = Some x ->
    forEach_listener code rec2 e args ls n seen b = Some x.
Proof.
  intros Hext e args ls.
  induction ls as [|cb rest IH]; intros n seen b x; simpl; [done|].
  destruct (call code rec1 cb args (log_history (HCall e cb args) b))
    as [[c b1]|] eqn:E; [|done].
  rewrite (call_more_fuel _ _ Hext _ _ _ _ E). destruct c; apply IH.
Qed.

Lemma emit_more_fuel fuel : forall e args (b : bus) x,
  emit code fuel e args b = Some x -> emit code (S fuel) e args b = Some x.
Proof.
  induction fuel as [|fuel IH]; intros e args b x; [done|].
  intros H. simpl in H. change (emit code (S (S fuel)) e args b) with
    (match events b !! e with
     | None => Some (Report false [], b)
     | Some listeners =>
         match forEach_listener code (emit code (S fuel)) e args listeners 0 [] b with
         | Some (successCount, seen, b') =>
             Some (Report (0 <? successCount) seen, b')
         | None => None
         end
     end).
  destruct (events b !! e) as [ls|]; [|done].
  destruct (forEach_listener code (emit code fuel) e args ls 0 [] b)
    as [[[n seen] b1]|] eqn:E; [|done].
  by rewrite (forEach_listener_more_fuel _ _ IH _ _ _ _ _ _ _ E).
Qed.

(** ** Whether a call throws *)

Lemma run_body_outcome emit_rec (body : list (@action Arg)) :
  forall (b : bus) c b',
    run_body emit_rec body b = Some (c, b') -> c = body_outcome body.
Proof.
  induction body as [|a rest IH]; intros b c b' H; simpl in H.
  - by inversion H.
  - destruct a as [e cb|e cb|e cb|e|e args|]; simpl.
    + destruct (is_function cb) eqn:Hf.
      * destruct (on_function e cb b Hf) as [_ [(_ & Hr & _)|(_ & Hr & _)]];
          destruct (on e cb b) as [[ok|x] b1]; simpl in Hr; try discriminate;
          by eapply IH.
      * rewrite (on_not_function e cb b Hf) in H. by inversion H.
    + destruct (once_returns e cb b) as [_ [(_ & Hr & _)|(_ & Hr & _)]];
        destruct (once e cb b) as [[ok|x] b1]; simpl in Hr; try discriminate;
        by eapply IH.
    + by eapply IH.
    + by eapply IH.
    + destruct (emit_rec e args b) as [[r b1]|]; [by eapply IH | discriminate].
    + by inversion H.
Qed.

Lemma call_outcome_spec emit_rec cb : forall args (b : bus) c b',
  call code emit_rec cb args b = Some (c, b') -> c = call_outcome code cb args.
Proof.
  induction cb as [id|uid e cb IH|]; intros args b c b' H; simpl in H |- *.
  - by eapply run_body_outcome.
  - destruct (call code emit_rec cb args b) as [[[[]|x] b1]|] eqn:E;
      [| |discriminate]; inversion H; subst; by eapply IH.
  - by inversion H.
Qed.

Lemma filter_returns_pos args (ls : list value) :
  (0 <? length (List.filter (fun cb => returns code cb args) ls)) = true <->
  exists cb, cb ∈ ls /\ call_outcome code cb args = Return tt.
Proof.
  rewrite Nat.ltb_lt. induction ls as [|cb ls IH]; simpl.
  - split; [lia | intros (cb & H & _); by apply elem_of_nil in H].
  - unfold returns at 1. destruct (call_outcome code cb args) as [[]|x] eqn:E;
      simpl.
    + split; [intros _; exists cb; split; [left | done] | lia].
    + rewrite IH. split; intros (cb' & Hin & Hr); exists cb'.
      * split; [by right | done].
      * apply elem_of_cons in Hin as [->|Hin]; [congruence | done].
Qed.

(** ** What an [emit] leaves in the history and in the console *)

Lemma grows_refl (b : bus) : grows b b.
Proof. exists [], []. by rewrite !app_nil_r. Qed.

Lemma grows_trans (b1 b2 b3 : bus) : grows b1 b2 -> grows b2 b3 -> grows b1 b3.
Proof.
  intros (h1 & c1 & Hh1 & Hc1) (h2 & c2 & Hh2 & Hc2).
  exists (h1 ++ h2), (c1 ++ c2). by rewrite Hh2, Hh1, Hc2, Hc1, !app_assoc.
Qed.

Ltac extension := first [ reflexivity | symmetry; apply app_nil_r ].

Ltac grows_step := unfold grows; simpl; eexists _, _; split; extension.

Lemma on_grows e cb (b : bus) : grows b (on e cb b).2.
Proof.
  unfold on. destruct (negb (is_function cb)); [apply grows_refl|].
  match goal with |- context [if ?c then _ else _] => destruct c end;
    destruct (events b !! e); grows_step.
Qed.

Lemma off_grows e cb (b : bus) : grows b (off e cb b).2.
Proof.
  unfold off. destruct (events b !! e) as [ls|]; [|grows_step].
  destruct (indexOf cb ls); [|grows_step].
  simpl. destruct (splice1 n ls); grows_step.
Qed.

Lemma removeAll_grows e (b : bus) : grows b (removeAllListeners e b).2.
Proof. destruct e as [[|a s]|]; grows_step. Qed.

Ltac grows_obligations :=
  first [ apply grows_refl | apply grows_trans | apply on_grows
        | apply off_grows | apply removeAll_grows
        | intros; grows_step ].

Lemma emit_grows fuel e args (b : bus) r b' :
  emit code fuel e args b = Some (r, b') -> grows b b'.
Proof. apply emit_R; grows_obligations. Qed.

Lemma run_body_grows emit_rec :
  (forall e args (b : bus) r b', emit_rec e args b = Some (r, b') -> grows b b') ->
  forall body b c b', run_body emit_rec body b = Some (c, b') -> grows b b'.
Proof. apply run_body_R; grows_obligations. Qed.

Lemma call_trace emit_rec :
  (forall e args (b : bus) r b', emit_rec e args b = Some (r, b') -> grows b b') ->
  forall cb args (b : bus) c b',
    call code emit_rec cb args b = Some (c, b') ->
    exists h k,
      history b' = history b ++ enter_mark args cb ++ h /\
      console b' = console b ++ k.
Proof.
  intros Hrec cb. induction cb as [id|uid e cb IH|]; intros args b c b' H;
    simpl in H.
  - apply (run_body_grows _ Hrec) in H as (h & k & Hh & Hk). simpl in *.
    exists h, k. by rewrite Hh, <- app_assoc.
  - destruct (call code emit_rec cb args b) as [[[u|x] b1]|] eqn:E;
      [| |discriminate]; inversion H; subst;
      apply IH in E as (h & k & Hh & Hk).
    + destruct (off_grows e (VOnce uid e cb) b1) as (h2 & k2 & Hh2 & Hk2).
      exists (h ++ h2), (k ++ k2).
      rewrite Hh2, Hh, Hk2, Hk. unfold enter_mark. simpl.
      by rewrite <- !app_assoc.
    + by exists h, k.
  - inversion H; subst. exists [], []. unfold enter_mark. simpl.
    by rewrite !app_nil_r.
Qed.

Lemma forEach_listener_trace emit_rec e args ls :
  (forall e args (b : bus) r b', emit_rec e args b = Some (r, b') -> grows b b') ->
  forall n seen (b : bus) n' seen' b',
    forEach_listener code emit_rec e args ls n seen b = Some (n', seen', b') ->
    exists h k,
      history b' = history b ++ h /\ console b' = console b ++ k /\
      calls_of e args ls `sublist_of` h /\
      errors_of code e args ls `sublist_of` k /\
      seen' = seen ++ ((fun cb => (cb, returns code cb args)) <$> ls) /\
      n' = n + length (List.filter (fun cb => returns code cb args) ls).
Proof.
  intros Hrec.
  induction ls as [|cb rest IH]; intros n seen b n' seen' b' H; simpl in H.
  - inversion H; subst. exists [], []. rewrite !app_nil_r. simpl.
    repeat split; done.
  - destruct (call code emit_rec cb args (log_history (HCall e cb args) b))
      as [[c b1]|] eqn:E; [|discriminate].
    pose proof (call_outcome_spec _ _ _ _ _ _ E) as Hc.
    apply (call_trace _ Hrec) in E as (h1 & k1 & Hh1 & Hk1). simpl in Hh1, Hk1.
    unfold calls_of, errors_of, returns, thrown. simpl.
    fold (calls_of e args rest). fold (errors_of code e args rest).
    destruct c as [u|x]; rewrite <- Hc; simpl;
      apply IH in H as (h2 & k2 & Hh2 & Hk2 & Hs1 & Hs2 & -> & ->).
    + exists ((HCall e cb args :: enter_mark args cb) ++ h1 ++ h2), (k1 ++ k2).
      rewrite Hh2, Hh1, Hk2, Hk1. simpl. rewrite <- !app_assoc. simpl.
      repeat split; try done.
      * apply sublist_skip, sublist_app; [done|]. by apply sublist_inserts_l.
      * by apply sublist_inserts_l.
    + exists ((HCall e cb args :: enter_mark args cb) ++ h1 ++ h2),
        (k1 ++ ErrorInListener e x :: k2).
      simpl in Hh2, Hk2. rewrite Hh2, Hh1, Hk2, Hk1. simpl.
      rewrite <- !app_assoc. simpl.
      repeat split; try done.
      * apply sublist_skip, sublist_app; [done|]. by apply sublist_inserts_l.
      * by apply sublist_inserts_l, sublist_skip.
Qed.

Lemma emit_trace fuel e args (b : bus) r b' :
  emit code fuel e args b = Some (r, b') ->
  exists h k,
    history b' = history b ++ h /\ console b' = console b ++ k /\
    calls_of e args (listenersOf e b) `sublist_of` h /\
    errors_of code e args (listenersOf e b) `sublist_of` k /\
    invoked r = (fun cb => (cb, returns code cb args)) <$> listenersOf e b /\
    (result r = true <->
       exists cb, cb ∈ listenersOf e b /\ call_outcome code cb args = Return tt).
Proof.
  destruct fuel as [|fuel]; simpl; [discriminate|].
  unfold listenersOf. destruct (events b !! e) as [ls|]; simpl.
  - destruct (forEach_listener code (emit code fuel) e args ls 0 [] b)
      as [[[n seen] b1]|] eqn:E; [|discriminate].
    intros H; inversion H; subst; simpl.
    apply forEach_listener_trace in E
      as (h & k & Hh & Hk & Hs1 & Hs2 & -> & ->);
      [|intros e0 a0 b0 r0 b0'; apply emit_grows].
    exists h, k. repeat split; try done; by apply filter_returns_pos.
  - intros H; inversion H; subst; simpl. exists [], [].
    rewrite !app_nil_r. repeat split; try done.
    intros (cb & Hcb & _). by apply elem_of_nil in Hcb.
Qed.

(** ** Listeners that do not emit: nothing else is called *)

Lemma quiet_refl (b : bus) : quiet b b.
Proof. exists [], []. by rewrite !app_nil_r. Qed.

Lemma quiet_trans (b1 b2 b3 : bus) : quiet b1 b2 -> quiet b2 b3 -> quiet b1 b3.
Proof.
  intros (h1 & c1 & Hh1 & Hc1 & A1 & B1 & C1) (h2 & c2 & Hh2 & Hc2 & A2 & B2 & C2).
  exists (h1 ++ h2), (c1 ++ c2). unfold called, entered, listener_errors in *.
  rewrite Hh2, Hh1, Hc2, Hc1, !app_assoc, !List.filter_app, A1, A2, B1, B2, C1, C2.
  done.
Qed.

Ltac quiet_step :=
  unfold quiet; simpl; eexists _, _;
  split; [extension | split; [extension | by repeat split]].

Lemma on_quiet e cb (b : bus) : quiet b (on e cb b).2.
Proof.
  unfold on. destruct (negb (is_function cb)); [apply quiet_refl|].
  match goal with |- context [if ?c then _ else _] => destruct c end;
    destruct (events b !! e); quiet_step.
Qed.

Lemma once_quiet e cb (b : bus) : quiet b (once e cb b).2.
Proof.
  unfold once. eapply quiet_trans; [|apply on_quiet]. quiet_step.
Qed.

Lemma off_quiet e cb (b : bus) : quiet b (off e cb b).2.
Proof.
  unfold off. destruct (events b !! e) as [ls|]; [|quiet_step].
  destruct (indexOf cb ls); [|quiet_step].
  simpl. destruct (splice1 n ls); quiet_step.
Qed.

Lemma removeAll_quiet e (b : bus) : quiet b (removeAllListeners e b).2.
Proof. destruct e as [[|a s]|]; quiet_step. Qed.

Lemma run_body_quiet emit_rec (body : list (@action Arg)) :
  forallb (fun a => negb (emits a)) body = true ->
  forall (b : bus) c b', run_body emit_rec body b = Some (c, b') -> quiet b b'.
Proof.
  induction body as [|a rest IH]; simpl; intros Hne b c b' H.
  - inversion H; subst. apply quiet_refl.
  - apply andb_prop in Hne as [Ha Hne].
    destruct a as [e cb|e cb|e cb|e|e args|]; simpl in Ha; try discriminate.
    + pose proof (on_quiet e cb b) as Hq.
      destruct (on e cb b) as [[ok|x] b1]; simpl in Hq.
      * eapply quiet_trans; [exact Hq | by eapply IH].
      * by inversion H; subst.
    + pose proof (once_quiet e cb b) as Hq.
      destruct (once e cb b) as [[ok|x] b1]; simpl in Hq.
      * eapply quiet_trans; [exact Hq | by eapply IH].
      * by inversion H; subst.
    + eapply quiet_trans; [apply (off_quiet e cb) | by eapply IH].
    + eapply quiet_trans; [apply (removeAll_quiet e) | by eapply IH].
    + inversion H; subst. apply quiet_refl.
Qed.

Lemma call_exact emit_rec :
  no_reentrant_emit code ->
  forall cb args (b : bus) c b',
    call code emit_rec cb args b = Some (c, b') ->
    exists h k,
      history b' = history b ++ h /\ console b' = console b ++ k /\
      called h = [] /\ entered h = enter_mark args cb /\
      listener_errors k = [].
Proof.
  intros Hne cb. induction cb as [id|uid e cb IH|]; intros args b c b' H;
    simpl in H.
  - apply (run_body_quiet _ _ (Hne id args)) in H
      as (h & k & Hh & Hk & A & B & C). simpl in *.
    exists (HEnter id args :: h), k. rewrite Hh, <- app_assoc.
    unfold called, entered, enter_mark in *. simpl. by rewrite A, B.
  - destruct (call code emit_rec cb args b) as [[[u|x] b1]|] eqn:E;
      [| |discriminate]; inversion H; subst;
      apply IH in E as (h & k & Hh & Hk & A & B & C).
    + destruct (off_quiet e (VOnce uid e cb) b1)
        as (h2 & k2 & Hh2 & Hk2 & A2 & B2 & C2).
      exists (h ++ h2), (k ++ k2). unfold called, entered, listener_errors in *.
      rewrite Hh2, Hh, Hk2, Hk, !List.filter_app, A, A2, B, B2, C, C2.
      rewrite <- !app_assoc, !app_nil_r. repeat split; reflexivity.
    + by exists h, k.
  - inversion H; subst. exists [], []. by rewrite !app_nil_r.
Qed.

Lemma forEach_listener_exact emit_rec e args ls :
  no_reentrant_emit code ->
  forall n seen (b : bus) n' seen' b',
    forEach_listener code emit_rec e args ls n seen b = Some (n', seen', b') ->
    exists h k,
      history b' = history b ++ h /\ console b' = console b ++ k /\
      called h = (fun cb => HCall e cb args) <$> ls /\
      entered h = enters_of args ls /\
      listener_errors k = errors_of code e args ls.
Proof.
  intros Hne.
  induction ls as [|cb rest IH]; intros n seen b n' seen' b' H; simpl in H.
  - inversion H; subst. exists [], []. by rewrite !app_nil_r.
  - destruct (call code emit_rec cb args (log_history (HCall e cb args) b))
      as [[c b1]|] eqn:E; [|discriminate].
    pose proof (call_outcome_spec _ _ _ _ _ _ E) as Hc.
    apply (call_exact _ Hne) in E as (h1 & k1 & Hh1 & Hk1 & A1 & B1 & C1).
    simpl in Hh1, Hk1.
    unfold enters_of, errors_of, thrown. simpl.
    fold (enters_of args rest). fold (errors_of code e args rest).
    destruct c as [u|x]; rewrite <- Hc; simpl;
      apply IH in H as (h2 & k2 & Hh2 & Hk2 & A2 & B2 & C2).
    + exists (HCall e cb args :: h1 ++ h2), (k1 ++ k2).
      unfold called, entered, listener_errors in *.
      rewrite Hh2, Hh1, Hk2, Hk1. simpl.
      rewrite !List.filter_app, A1, A2, B1, B2, C1, C2, <- !app_assoc. done.
    + exists (HCall e cb args :: h1 ++ h2), (k1 ++ ErrorInListener e x :: k2).
      unfold called, entered, listener_errors in *.
      simpl in Hh2, Hk2. rewrite Hh2, Hh1, Hk2, Hk1. simpl.
      rewrite !List.filter_app. simpl.
      rewrite A1, A2, B1, B2, C1, C2, <- !app_assoc. done.
Qed.

Lemma emit_exact fuel e args (b : bus) :
  no_reentrant_emit code ->
  exists r b' h k,
    emit code (S fuel) e args b = Some (r, b') /\
    history b' = history b ++ h /\ console b' = console b ++ k /\
    called h = (fun cb => HCall e cb args) <$> listenersOf e b /\
    entered h = enters_of args (listenersOf e b) /\
    listener_errors k = errors_of code e args (listenersOf e b).
Proof.
  intros Hne. destruct (emit_total fuel e args b Hne) as [[r b'] H].
  exists r, b'. rewrite H. simpl in H. unfold listenersOf.
  destruct (events b !! e) as [ls|]; simpl.
  - destruct (forEach_listener code (emit code fuel) e args ls 0 [] b)
      as [[[n seen] b1]|] eqn:E; [|discriminate].
    inversion H; subst.
    apply (forEach_listener_exact _ _ _ _ Hne) in E
      as (h & k & Hh & Hk & A & B & C).
    by exists h, k.
  - inversion H; subst. exists [], []. by rewrite !app_nil_r.
Qed.

(** ** A callback that is not registered is not called *)

Section StaysOff.

Variable e0 : string.
Variable id0 : nat.
Abbreviation stays := (stays_off e0 (VFunc id0)).

Lemma stays_refl (b : bus) : stays b b.
Proof.
  intros H. split; [done|]. exists []. rewrite app_nil_r. split; [done|].
  intros args. apply not_elem_of_nil.
Qed.

Lemma stays_trans (b1 b2 b3 : bus) : stays b1 b2 -> stays b2 b3 -> stays b1 b3.
Proof.
  intros H1 H2 Hb. destruct (H1 Hb) as (Hb2 & h1 & Hh1 & Hn1).
  destruct (H2 Hb2) as (Hb3 & h2 & Hh2 & Hn2). split; [done|].
  exists (h1 ++ h2). rewrite Hh2, Hh1, app_assoc. split; [done|].
  intros args. rewrite not_elem_of_app. split; [apply Hn1 | apply Hn2].
Qed.

Lemma stays_same (b b' : bus) x :
  (forall e', listenersOf e' b' = listenersOf e' b) ->
  history b' = history b ++ x ->
  (forall args, HCall e0 (VFunc id0) args ∉ x) ->
  stays b b'.
Proof.
  intros Hl Hh Hx Hb. split; [by rewrite Hl|]. by exists x.
Qed.

Lemma grows_stays (b b' : bus) :
  (VFunc id0 ∈ listenersOf e0 b' -> VFunc id0 ∈ listenersOf e0 b) ->
  quiet b b' -> stays b b'.
Proof.
  intros Hsub (h & k & Hh & _ & A & _ & _) Hb. split; [tauto|].
  exists h. split; [done|]. intros args Hin.
  assert (HCall e0 (VFunc id0) args ∈ called h) as Hc.
  { unfold called. rewrite list_elem_of_In. apply List.filter_In.
    split; [by apply list_elem_of_In | done]. }
  rewrite A in Hc. by apply elem_of_nil in Hc.
Qed.

Lemma on_stays e cb (b : bus) :
  subscribes e0 (VFunc id0) (@DoOn Arg e cb) = false -> stays b (on e cb b).2.
Proof.
  intros Hs. apply grows_stays; [|apply on_quiet].
  destruct (is_function cb) eqn:Hf; [|by rewrite on_not_function].
  destruct (on_function e cb b Hf)
    as [_ [(_ & _ & Hsame & _)|(_ & _ & He & Hother)]].
  - by rewrite Hsame.
  - destruct (decide (e0 = e)) as [->|Hne]; [|by rewrite Hother].
    rewrite He, elem_of_app, list_elem_of_singleton. intros [H|H]; [done|].
    simpl in Hs. apply bool_decide_eq_false in Hs. destruct Hs. by split.
Qed.

Lemma once_stays e cb (b : bus) : stays b (once e cb b).2.
Proof.
  apply grows_stays; [|apply once_quiet].
  destruct (once_returns e cb b)
    as [_ [(_ & _ & Hsame & _)|(_ & _ & He & Hother)]].
  - by rewrite Hsame.
  - destruct (decide (e0 = e)) as [->|Hne]; [|by rewrite Hother].
    rewrite He, elem_of_app, list_elem_of_singleton. intros [H|H]; [done|].
    discriminate.
Qed.

Lemma off_stays e cb (b : bus) : stays b (off e cb b).2.
Proof.
  apply grows_stays; [|apply off_quiet].
  destruct (listenersOf_off e cb b)
    as [(_ & _ & Hsame)|(i & _ & _ & He & Hother)].
  - by rewrite Hsame.
  - destruct (decide (e0 = e)) as [->|Hne]; [|by rewrite Hother].
    rewrite He. apply list_elem_of_delete_inv.
Qed.

Lemma removeAll_stays e (b : bus) : stays b (removeAllListeners e b).2.
Proof.
  apply grows_stays; [|apply removeAll_quiet].
  destruct (listenersOf_removeAll e b e0) as [-> | ->]; [done|].
  intros H. by apply elem_of_nil in H.
Qed.

Hypothesis code_never_subscribes :
  forall id args, never_subscribes e0 (VFunc id0) (code id args) = true.

Lemma run_body_stays emit_rec :
  (forall e args (b : bus) r b', emit_rec e args b = Some (r, b') -> stays b b') ->
  forall body (b : bus) c b',
    never_subscribes e0 (VFunc id0) body = true ->
    run_body emit_rec body b = Some (c, b') -> stays b b'.
Proof.
  intros Hrec body.
  induction body as [|a rest IH]; intros b c b' Hns H; simpl in H.
  - inversion H; subst. apply stays_refl.
  - unfold never_subscribes in Hns. simpl in Hns.
    apply andb_prop in Hns as [Ha Hns]. apply negb_true_iff in Ha.
    destruct a as [e cb|e cb|e cb|e|e args|].
    + pose proof (on_stays e cb b Ha) as Hon.
      destruct (on e cb b) as [[ok|x] b1]; simpl in Hon.
      * eapply stays_trans; [exact Hon | by eapply IH].
      * by inversion H; subst.
    + pose proof (once_stays e cb b) as Hon.
      destruct (once e cb b) as [[ok|x] b1]; simpl in Hon.
      * eapply stays_trans; [exact Hon | by eapply IH].
      * by inversion H; subst.
    + eapply stays_trans; [apply (off_stays e cb) | by eapply IH].
    + eapply stays_trans; [apply (removeAll_stays e) | by eapply IH].
    + destruct (emit_rec e args b) as [[r b1]|] eqn:E; [|discriminate].
      eapply stays_trans; [by eapply Hrec | by eapply IH].
    + inversion H; subst. apply stays_refl.
Qed.

Lemma call_stays emit_rec :
  (forall e args (b : bus) r b', emit_rec e args b = Some (r, b') -> stays b b') ->
  forall cb args (b : bus) c b',
    call code emit_rec cb args b = Some (c, b') -> stays b b'.
Proof.
  intros Hrec cb. induction cb as [id|uid e cb IH|]; intros args b c b' H;
    simpl in H.
  - eapply stays_trans; [|eapply run_body_stays; eauto].
    apply (stays_same _ _ [HEnter id args]); try done.
    intros a Hin. apply list_elem_of_singleton in Hin. discriminate.
  - destruct (call code emit_rec cb args b) as [[[u|x] b1]|] eqn:E;
      [| |discriminate]; inversion H; subst.
    + eapply stays_trans; [by eapply IH | apply off_stays].
    + by eapply IH.
  - inversion H; subst. apply stays_refl.
Qed.

Lemma forEach_listener_stays emit_rec e args ls :
  (forall e args (b : bus) r b', emit_rec e args b = Some (r, b') -> stays b b') ->
  (e = e0 -> VFunc id0 ∉ ls) ->
  forall n seen (b : bus) n' seen' b',
    forEach_listener code emit_rec e args ls n seen b = Some (n', seen', b') ->
    stays b b'.
Proof.
  intros Hrec.
  induction ls as [|cb rest IH]; intros Hls n seen b n' seen' b' H; simpl in H.
  - inversion H; subst. apply stays_refl.
  - assert (stays b (log_history (HCall e cb args) b)) as Hlog.
    { apply (stays_same _ _ [HCall e cb args]); try done.
      intros a Hin. apply list_elem_of_singleton in Hin.
      injection Hin as <- <- _. apply Hls; [done | left]. }
    assert (e = e0 -> VFunc id0 ∉ rest) as Hrest.
    { intros He. specialize (Hls He). by apply not_elem_of_cons in Hls as [_ ?]. }
    destruct (call code emit_rec cb args (log_history (HCall e cb args) b))
      as [[[u|x] b1]|] eqn:E; [| |discriminate].
    + eapply stays_trans; [exact Hlog|].
      eapply stays_trans; [by eapply call_stays | by eapply IH].
    + eapply stays_trans; [exact Hlog|].
      eapply stays_trans; [by eapply call_stays|].
      eapply stays_trans; [|by eapply IH].
      by apply (stays_same _ _ []); [| simpl; rewrite app_nil_r |
        intros a Hin; apply elem_of_nil in Hin].
Qed.

Lemma emit_stays fuel : forall e args (b : bus) r b',
  emit code fuel e args b = Some (r, b') -> stays b b'.
Proof.
  induction fuel as [|fuel IH]; intros e args b r b' H; simpl in H;
    [discriminate|].
  destruct (events b !! e) as [ls|] eqn:El.
  - destruct (forEach_listener code (emit code fuel) e args ls 0 [] b)
      as [[[n seen] b1]|] eqn:E; [|discriminate].
    inversion H; subst. intros Hb.
    assert (e = e0 -> VFunc id0 ∉ ls) as Hls.
    { intros -> Hin. apply Hb. unfold listenersOf. by rewrite El. }
    exact (forEach_listener_stays _ _ _ _ IH Hls _ _ _ _ _ _ E Hb).
  - inversion H; subst. apply stays_refl.
Qed.

Lemma program_stays fuel prog (b : bus) c b' :
  never_subscribes e0 (VFunc id0) prog = true ->
  run_body (emit code fuel) prog b = Some (c, b') -> stays b b'.
Proof. intros Hns H. eapply run_body_stays; [apply emit_stays | done | done]. Qed.

End StaysOff.

Lemma program_total fuel (prog : list (@action Arg)) :
  no_reentrant_emit code ->
  forall b : bus, is_Some (run_body (emit code (S fuel)) prog b).
Proof.
  intros Hne. induction prog as [|a rest IH]; intros b; [by eexists|].
  destruct a as [e cb|e cb|e cb|e|e args|]; cbn [run_body]; try apply IH.
  - destruct (on e cb b) as [[?|?] ?]; [apply IH | by eexists].
  - destruct (once e cb b) as [[?|?] ?]; [apply IH | by eexists].
  - destruct (emit_total fuel e args b Hne) as [[r b1] ->]. apply IH.
  - by eexists.
Qed.

Lemma off_removes_single e cb (b : bus) :
  (off e cb b).1 = true ->
  count_occ value_eq_dec (listenersOf e b) cb = 1 ->
  cb ∉ listenersOf e (off e cb b).2.
Proof.
  intros Hoff Hone.
  destruct (listenersOf_off e cb b) as [(Hf & _)|(i & _ & Hi & He & _)];
    [congruence|].
  rewrite He. apply indexOf_Some in Hi as (_ & Hc & _).
  rewrite Hone in Hc. simpl in Hc.
  rewrite list_elem_of_In. by apply (count_occ_not_In value_eq_dec).
Qed.

(** ** The claims *)


(** C7.  [emit] on an event name without listeners returns [false] and
    changes nothing.  Whether a call of a listener throws is decided by
    the listener alone.  An [emit] that returns has called every listener
    registered for the event name, in order and whether or not others
    threw, has written to the console one error for each one that threw,
    and returns [true] exactly when one of them returned normally.  When
    no listener emits, [emit] returns, these calls are the only ones made
    and these errors the only errors of listeners logged. *)
Theorem emit_returns_success :
  (forall fuel e args (b : bus),
      listenersOf e b = [] ->
      emit code (S fuel) e args b = Some (Report false [], b)) /\
  (forall emit_rec cb args (b : bus) c b',
      call code emit_rec cb args b = Some (c, b') ->
      c = call_outcome code cb args) /\
  (forall fuel e args (b : bus) r b',
      emit code fuel e args b = Some (r, b') ->
      (result r = true <->
         exists cb, cb ∈ listenersOf e b /\
                    call_outcome code cb args = Return tt) /\
      invoked r = (fun cb => (cb, returns code cb args)) <$> listenersOf e b /\
      exists h k,
        history b' = history b ++ h /\ console b' = console b ++ k /\
        calls_of e args (listenersOf e b) `sublist_of` h /\
        errors_of code e args (listenersOf e b) `sublist_of` k) /\
  (no_reentrant_emit code ->
   forall fuel e args (b : bus),
     exists r b' h k,
       emit code (S fuel) e args b = Some (r, b') /\
       history b' = history b ++ h /\ console b' = console b ++ k /\
       called h = (fun cb => HCall e cb args) <$> listenersOf e b /\
       entered h = enters_of args (listenersOf e b) /\
       listener_errors k = errors_of code e args (listenersOf e b)).
Proof.
  split; [|split; [|split]].
  - intros fuel e args b. unfold listenersOf. simpl.
    destruct (events b !! e) as [ls|]; simpl; [intros ->|]; done.
  - intros emit_rec cb args b c b'. apply call_outcome_spec.
  - intros fuel e args b r b' H.
    destruct (emit_trace _ _ _ _ _ _ H) as (h & k & Hh & Hk & Hs1 & Hs2 & Hi & Hr).
    split; [done|]. split; [done|]. by exists h, k.
  - intros Hne fuel e args b. by apply emit_exact.
Qed.

(** C8.  Starting from a bus without listeners, whatever its cap (50 for
    a new bus), after any sequence of [on], [once], [off],
    [removeAllListeners] and [emit] calls no event name has more listeners
    than the cap; and once an event name has that many, a further [on] or
    [once] returns [false] instead of throwing, logs a warning and leaves
    the count where it is. *)
Theorem listener_cap fuel prog c (b0 b : bus) :
  events b0 = ∅ ->
  run_body (emit code fuel) prog b0 = Some (c, b) ->
  maxListeners (@new_EventBus Arg) = 50 /\
  forall e,
    listenerCount e b <= maxListeners b0 /\
    (listenerCount e b = maxListeners b0 ->
     forall cb,
       (is_function cb = true ->
        (on e cb b).1 = Return false /\
        listenerCount e (on e cb b).2 = maxListeners b0 /\
        WarnMaxListeners (maxListeners b0) e ∈ console (on e cb b).2) /\
       (once e cb b).1 = Return false /\
       listenerCount e (once e cb b).2 = maxListeners b0 /\
       WarnMaxListeners (maxListeners b0) e ∈ console (once e cb b).2).
Proof.
  intros Hempty H. split; [done|]. intros e.
  apply program_keeps_cap in H as [Hmax Hcap].
  assert (cap_ok b) as Hok.
  { apply Hcap. intros e'. unfold listenerCount.
    rewrite Hempty, lookup_empty. lia. }
  split; [specialize (Hok e); lia|].
  intros Hfull cb. split; [intros Hf|].
  - destruct (on_function e cb b Hf)
      as [_ [(_ & Hr & Hsame & Hw)|(Hlt & _)]]; [|lia].
    rewrite Hmax in Hw. by rewrite listenerCount_length, Hsame,
      <- listenerCount_length.
  - destruct (once_returns e cb b)
      as [_ [(_ & Hr & Hsame & Hw)|(Hlt & _)]]; [|lia].
    rewrite Hmax in Hw. by rewrite listenerCount_length, Hsame,
      <- listenerCount_length.
Qed.

End Facts.



Lemma emit_returns_success_witness :
  emit first_throws 1 "nobody" [] two_listeners
    = Some (Report false [], two_listeners) /\
  exists r b' h k,
    emit first_throws 1 "e" [] two_listeners = Some (r, b') /\
    result r = true /\
    invoked r = [(VFunc 0, false); (VFunc 1, true)] /\
    history b' = history two_listeners ++ h /\
    console b' = console two_listeners ++ k /\
    called h = [HCall "e" (VFunc 0) []; HCall "e" (VFunc 1) []] /\
    listener_errors k = [ErrorInListener "e" UserExn].
Proof.
  destruct (emit_returns_success first_throws) as (Hnone & _ & Hany & Hquiet).
  split; [by apply Hnone|].
  assert (no_reentrant_emit first_throws) as Hne
    by (intros [|id] args; reflexivity).
  destruct (Hquiet Hne 0 "e" [] two_listeners)
    as (r & b' & h & k & H & Hh & Hk & Hc & _ & He).
  destruct (Hany 1 "e" [] two_listeners r b' H) as (Hr & Hi & _).
  exists r, b', h, k. repeat split; try assumption.
  apply Hr. exists (VFunc 1). split; [|reflexivity].
  by apply (bool_decide_unpack _).
Defined.

Lemma listener_cap_witness :
  exists c b,
    run_body (emit thrower 1) fifty_subscriptions new_EventBus = Some (c, b) /\
    listenerCount "x" b = 50 /\
    (on "x" (VFunc 50) b).1 = Return false /\
    listenerCount "x" (on "x" (VFunc 50) b).2 = 50.
Proof.
  eexists _, _. split; [vm_compute; reflexivity|].
  match goal with
  | |- listenerCount _ ?b = _ /\ _ =>
      pose proof (listener_cap thrower 1 fifty_subscriptions (Return tt)
                    new_EventBus b eq_refl) as H
  end.
  destruct (H ltac:(vm_compute; reflexivity)) as [_ H'].
  destruct (H' "x") as [_ Hfull].
  split; [vm_compute; reflexivity|].
  destruct (Hfull ltac:(vm_compute; reflexivity) (VFunc 50)) as [Hon _].
  destruct (Hon eq_refl) as (H1 & H2 & _). by split.
Defined.

(** C2, at the failing input: a callback that throws, subscribed with
    [once], is still subscribed after it has been called and is called
    again by the next [emit]. *)
Theorem once_throwing_callback_called_twice :
  exists b',
    run_body (emit thrower 1) once_then_two_emits new_EventBus
      = Some (Return tt, b') /\
    timesEntered 0 b' = 2 /\
    listenersOf "e" b' = [VOnce 0 "e" (VFunc 0)].
Proof. eexists. split; [vm_compute; reflexivity|]. by vm_compute. Qed.

(** For comparison: a callback that returns normally is called once. *)
Example once_returning_callback_called_once :
  exists b',
    run_body (emit unsubscriber 1)
      [DoOnce "e" (VFunc 1); DoEmit "e" []; DoEmit "e" []] new_EventBus
      = Some (Return tt, b') /\
    timesEntered 1 b' = 1 /\
    listenersOf "e" b' = [].
Proof. eexists. split; [vm_compute; reflexivity|]. by vm_compute. Qed.

(** C10, at the failing input: [on] throws for a callback that is not a
    function, but [once] never throws: it subscribes its wrapper and
    returns [true]; the error only arises when the event is emitted, where
    it is caught and logged, and the wrapper stays subscribed. *)
Theorem once_accepts_non_function :
  (forall e (b : @bus unit),
      on e VOther b = (Throw (Error "Callback must be a function"), b)) /\
  (forall e cb (b : @bus unit), exists ok, (once e cb b).1 = Return ok) /\
  (once "e" VOther (@new_EventBus unit)).1 = Return true /\
  listenersOf "e" (once "e" VOther (@new_EventBus unit)).2
    = [VOnce 0 "e" VOther] /\
  exists r b',
    emit thrower 1 "e" [] (once "e" VOther new_EventBus).2 = Some (r, b') /\
    result r = false /\
    console b' = [ErrorInListener "e" (TypeError "callback is not a function")] /\
    listenersOf "e" b' = [VOnce 0 "e" VOther].
Proof.
  split; [intros e b; by apply on_not_function|].
  split.
  { intros e cb b.
    destruct (once_returns e cb b) as [_ [(_ & -> & _)|(_ & -> & _)]]; eauto. }
  split; [by vm_compute|]. split; [by vm_compute|].
  eexists _, _. split; [vm_compute; reflexivity|]. by vm_compute.
Qed.

End EventBusFacts.

(* ===================================================================== *)
(** * Properties of the real-time service *)
(* ===================================================================== *)

Module RealtimeFacts.
Import Realtime.

(** ** Tables *)

Lemma table_get_set_eq {V} k (v : V) t : table_get k (table_set k v t) = Some v.
Proof.
  induction t as [|[k' v'] t IH]; simpl.
  - by rewrite String.eqb_refl.
  - destruct (String.eqb k k') eqn:E; simpl; rewrite E; [done | exact IH].
Qed.

Lemma table_get_set_ne {V} k k' (v : V) t :
  k <> k' -> table_get k' (table_set k v t) = table_get k' t.
Proof.
  intros Hne. induction t as [|[k1 v1] t IH]; simpl.
  - destruct (String.eqb_spec k' k); [congruence | done].
  - destruct (String.eqb_spec k k1) as [->|Hk]; simpl.
    + destruct (String.eqb_spec k' k1); [congruence | done].
    + destruct (String.eqb_spec k' k1); [done | exact IH].
Qed.

Lemma table_get_delete_ne {V} k k' (t : list (string * V)) :
  k <> k' -> table_get k' (table_delete k t) = table_get k' t.
Proof.
  intros Hne. induction t as [|[k1 v1] t IH]; simpl; [done|].
  destruct (String.eqb_spec k k1) as [->|Hk]; simpl.
  - destruct (String.eqb_spec k' k1); [congruence | done].
  - destruct (String.eqb_spec k' k1); [done | exact IH].
Qed.

Lemma table_get_Some {V} k (v : V) t : table_get k t = Some v -> (k, v) ∈ t.
Proof.
  induction t as [|[k1 v1] t IH]; simpl; [done|].
  destruct (String.eqb_spec k k1) as [->|Hk].
  - intros [= ->]. left.
  - intros H. right. by apply IH.
Qed.

Lemma table_get_None {V} k (t : list (string * V)) :
  k ∉ t.*1 -> table_get k t = None.
Proof.
  induction t as [|[k1 v1] t IH]; simpl; [done|].
  rewrite not_elem_of_cons. intros [Hne Hnin].
  destruct (String.eqb_spec k k1); [congruence | by apply IH].
Qed.

Lemma table_set_keys {V} k (v : V) t :
  NoDup t.*1 -> NoDup (table_set k v t).*1.
Proof.
  induction t as [|[k1 v1] t IH]; simpl; intros Hnd.
  - apply NoDup_singleton.
  - apply NoDup_cons in Hnd as [Hnin Hnd].
    destruct (String.eqb_spec k k1) as [->|Hk]; simpl.
    + by apply NoDup_cons.
    + apply NoDup_cons. split; [|by apply IH].
      intros Hin. apply Hnin. clear -Hin Hk.
      induction t as [|[k2 v2] t IH]; simpl in *.
      * apply list_elem_of_singleton in Hin. congruence.
      * destruct (String.eqb_spec k k2) as [->|Hk2]; simpl in *; [done|].
        apply elem_of_cons in Hin as [->|Hin]; [left | right; by apply IH].
Qed.

Lemma table_delete_keys {V} k (t : list (string * V)) :
  NoDup t.*1 ->
  NoDup (table_delete k t).*1 /\ (forall k', k' ∈ (table_delete k t).*1 -> k' ∈ t.*1).
Proof.
  induction t as [|[k1 v1] t IH]; simpl; intros Hnd; [done|].
  apply NoDup_cons in Hnd as [Hnin Hnd]. destruct (IH Hnd) as [IH1 IH2].
  destruct (String.eqb_spec k k1) as [->|Hk]; simpl.
  - split; [done|]. intros k' Hk'. by right.
  - split.
    + apply NoDup_cons. split; [|done]. intros Hin. by apply Hnin, IH2.
    + intros k' Hk'. apply elem_of_cons in Hk' as [->|Hk']; [left|].
      right. by apply IH2.
Qed.

Lemma table_get_delete_eq {V} k (t : list (string * V)) :
  NoDup t.*1 -> table_get k (table_delete k t) = None.
Proof.
  induction t as [|[k1 v1] t IH]; simpl; intros Hnd; [done|].
  apply NoDup_cons in Hnd as [Hnin Hnd].
  destruct (String.eqb_spec k k1) as [->|Hk]; simpl.
  - by apply table_get_None.
  - destruct (String.eqb_spec k k1); [congruence | by apply IH].
Qed.

(** ** Cancelling timers *)

Lemma clear_all_fields ids : forall s,
  intervals (clear_all ids s) = intervals s /\
  isOnline (clear_all ids s) = isOnline s /\
  refreshRates (clear_all ids s) = refreshRates s /\
  nextHandle (clear_all ids s) = nextHandle s /\
  emitted (clear_all ids s) = emitted s.
Proof.
  induction ids as [|[k id] ids IH]; intros s; simpl; [done|].
  destruct (IH (clearInterval id s)) as (-> & -> & -> & -> & ->). done.
Qed.

Lemma elem_of_clearInterval t id s :
  t ∈ live (clearInterval id s) <-> t ∈ live s /\ handle t <> id.
Proof.
  unfold clearInterval. simpl. rewrite list_elem_of_In, filter_In,
    <- list_elem_of_In, negb_true_iff, Pos.eqb_neq. done.
Qed.

Lemma elem_of_clear_all t ids : forall s,
  t ∈ live (clear_all ids s) <->
  t ∈ live s /\ forall k id, (k, id) ∈ ids -> handle t <> id.
Proof.
  induction ids as [|[k0 id0] ids IH]; intros s; simpl.
  - split; [|by intros [? _]]. intros H. split; [done|].
    intros k id Hin. by apply elem_of_nil in Hin.
  - rewrite IH, elem_of_clearInterval. split.
    + intros [[Hin Hne] Hall]. split; [done|]. intros k id Hk.
      apply elem_of_cons in Hk as [[= -> ->]|Hk]; eauto.
    + intros [Hin Hall]. repeat split; [done| |].
      * apply (Hall k0). left.
      * intros k id Hk. apply (Hall k). by right.
Qed.

(** ** The invariant [wf] *)

Lemma no_elements {A} (l : list A) : (forall x, x ∉ l) -> l = [].
Proof. destruct l as [|x l]; [done|]. intros H. destruct (H x). left. Qed.

Lemma clear_all_cancels ids s :
  (forall t, t ∈ live s -> exists name, table_get name ids = Some (handle t)) ->
  live (clear_all ids s) = [].
Proof.
  intros Htr.
  destruct (live (clear_all ids s)) as [|t l] eqn:E; [done|].
  assert (t ∈ live (clear_all ids s)) as Hin by (rewrite E; left).
  apply elem_of_clear_all in Hin as [Hin Hall].
  destruct (Htr t Hin) as [name Hname].
  apply table_get_Some in Hname. by destruct (Hall name (handle t) Hname).
Qed.

Lemma pause_cancels_all s : tracked s -> live (pauseAutoRefresh s) = [].
Proof. apply clear_all_cancels. Qed.

Lemma stopWidgetRefresh_fields name s :
  isOnline (stopWidgetRefresh name s) = isOnline s /\
  refreshRates (stopWidgetRefresh name s) = refreshRates s.
Proof.
  unfold stopWidgetRefresh. by destruct (table_get name (intervals s)).
Qed.

Lemma stopWidgetRefresh_wf name s :
  wf s ->
  wf (stopWidgetRefresh name s) /\
  table_get name (intervals (stopWidgetRefresh name s)) = None.
Proof.
  intros (Hr & Hi & Htr & Hoff). unfold stopWidgetRefresh.
  destruct (table_get name (intervals s)) as [id|] eqn:E; [|done].
  simpl. split; [|by apply table_get_delete_eq].
  split; [done|]. split; [by apply table_delete_keys|]. split.
  - intros t Hin. simpl in *.
    change (t ∈ live (clearInterval id s)) in Hin.
    apply elem_of_clearInterval in Hin as [Hin Hne].
    destruct (Htr t Hin) as [name' Hname']. exists name'.
    rewrite table_get_delete_ne; [done|]. intros ->. congruence.
  - simpl. intros Ho. by rewrite (Hoff Ho).
Qed.

Lemma stopWidgetRefresh_absent name s :
  table_get name (intervals s) = None -> stopWidgetRefresh name s = s.
Proof. intros H. unfold stopWidgetRefresh. by rewrite H. Qed.

Lemma startWidgetRefresh_cases name i s :
  let s1 := stopWidgetRefresh name s in
  (isOnline s = true /\ (0 < i)%Z /\
   startWidgetRefresh name i s =
     Service (table_set name (nextHandle s1) (intervals s1)) (isOnline s1)
       (refreshRates s1) (live s1 ++ [Timer (nextHandle s1) name i])
       (Pos.succ (nextHandle s1)) (emitted s1))
  \/
  ((isOnline s = false \/ (i <= 0)%Z) /\ startWidgetRefresh name i s = s1).
Proof.
  intros s1. unfold startWidgetRefresh. fold s1.
  destruct (stopWidgetRefresh_fields name s) as [Ho _]. fold s1 in Ho.
  rewrite Ho. destruct (isOnline s); simpl.
  - destruct (Z.leb_spec i 0); [right; split; [by right|done]|].
    left. repeat split; try done. unfold set_intervals. simpl. by rewrite Ho.
  - right. split; [by left|done].
Qed.

Lemma startWidgetRefresh_wf name i s : wf s -> wf (startWidgetRefresh name i s).
Proof.
  intros Hwf. destruct (stopWidgetRefresh_wf name s Hwf) as [Hwf1 Hnone].
  destruct (startWidgetRefresh_cases name i s)
    as [(Hon & _ & ->)|(_ & ->)]; [|done].
  destruct Hwf1 as (Hr & Hi & Htr & _).
  split; [done|]. split; [by apply table_set_keys|]. split.
  - intros t Hin. simpl in *. apply elem_of_app in Hin as [Hin|Hin].
    + destruct (Htr t Hin) as [name' Hname']. exists name'.
      rewrite table_get_set_ne; [done|]. intros ->. congruence.
    + apply list_elem_of_singleton in Hin as ->. simpl.
      exists name. apply table_get_set_eq.
  - simpl. destruct (stopWidgetRefresh_fields name s) as [-> _]. congruence.
Qed.

Lemma startWidgetRefresh_fields name i s :
  isOnline (startWidgetRefresh name i s) = isOnline s /\
  refreshRates (startWidgetRefresh name i s) = refreshRates s.
Proof.
  destruct (stopWidgetRefresh_fields name s) as [Ho Hr].
  destruct (startWidgetRefresh_cases name i s)
    as [(_ & _ & ->)|(_ & ->)]; done.
Qed.

Lemma start_each_wf rates : forall s,
  wf s ->
  wf (start_each rates s) /\
  isOnline (start_each rates s) = isOnline s /\
  refreshRates (start_each rates s) = refreshRates s.
Proof.
  induction rates as [|[w i] rates IH]; intros s Hwf; simpl; [done|].
  destruct (0 <? i)%Z; [|by apply IH].
  destruct (startWidgetRefresh_fields w i s) as [Ho Hr].
  destruct (IH _ (startWidgetRefresh_wf w i s Hwf)) as (H1 & H2 & H3).
  split; [done|]. split; congruence.
Qed.

(** Starting the timers of [rates], none of which is running yet. *)
Lemma start_each_active rates : forall s,
  isOnline s = true ->
  NoDup rates.*1 ->
  (forall k, k ∈ rates.*1 -> table_get k (intervals s) = None) ->
  active (start_each rates s)
    = active s ++ List.filter (fun '(_, interval) => (0 <? interval)%Z) rates.
Proof.
  induction rates as [|[w i] rates IH]; intros s Hon Hnd Hfree; simpl.
  - by rewrite app_nil_r.
  - apply NoDup_cons in Hnd as [Hnin Hnd].
    destruct (Z.ltb_spec 0 i) as [Hpos|Hnpos].
    + destruct (startWidgetRefresh_cases w i s)
        as [(_ & _ & Heq)|([Hoff|Hle] & _)]; [|congruence|lia].
      rewrite (stopWidgetRefresh_absent w s) in Heq by (apply Hfree; left).
      rewrite IH; [| |done|].
      * rewrite Heq. unfold active. simpl. rewrite fmap_app. simpl.
        by rewrite <- app_assoc.
      * by rewrite Heq.
      * intros k Hk. rewrite Heq. simpl.
        rewrite table_get_set_ne by (intros ->; done).
        apply Hfree. by right.
    + apply IH; [done|done|]. intros k Hk. apply Hfree. by right.
Qed.

Lemma start_each_offline rates : forall s,
  isOnline s = false -> intervals s = [] -> start_each rates s = s.
Proof.
  induction rates as [|[w i] rates IH]; intros s Hoff Hnil; simpl; [done|].
  destruct (0 <? i)%Z; [|by apply IH].
  destruct (startWidgetRefresh_cases w i s)
    as [(Hon & _)|(_ & ->)]; [congruence|].
  rewrite stopWidgetRefresh_absent by by rewrite Hnil.
  by apply IH.
Qed.

Lemma clear_all_wf ids s : wf s -> wf (clear_all ids s).
Proof.
  intros (Hr & Hi & Htr & Hoff).
  destruct (clear_all_fields ids s) as (Hi' & Ho' & Hr' & _).
  split; [by rewrite Hr'|]. split; [by rewrite Hi'|]. split.
  - intros t Hin. rewrite Hi'. apply Htr.
    by apply elem_of_clear_all in Hin as [Hin _].
  - rewrite Ho'. intros Ho. apply no_elements. intros t Hin.
    apply elem_of_clear_all in Hin as [Hin _]. rewrite (Hoff Ho) in Hin.
    by apply elem_of_nil in Hin.
Qed.

Lemma resumeAutoRefresh_wf s :
  NoDup (refreshRates s).*1 -> live s = [] -> wf (resumeAutoRefresh s).
Proof.
  intros Hr Hlive. apply start_each_wf.
  split; [done|]. split; [apply NoDup_nil_2|]. split; [|done].
  intros t Hin. simpl in Hin. rewrite Hlive in Hin.
  by apply elem_of_nil in Hin.
Qed.

Lemma perform_wf c s : wf s -> enabled c s -> wf (perform c s).
Proof.
  intros Hwf Hen. destruct c as [|w i|w| |w i| | |]; simpl.
  - by apply start_each_wf.
  - by apply startWidgetRefresh_wf.
  - by apply stopWidgetRefresh_wf.
  - by apply clear_all_wf.
  - unfold setRefreshRate.
    assert (wf (set_refreshRates (table_set w i (refreshRates s)) s)) as Hwf1.
    { destruct Hwf as (Hr & Hi & Htr). split; [by apply table_set_keys|done]. }
    destruct (0 <? i)%Z; [by apply startWidgetRefresh_wf|].
    by apply stopWidgetRefresh_wf.
  - destruct Hwf as (Hr & Hi & Htr & Hoff). simpl in Hen.
    apply resumeAutoRefresh_wf; simpl; auto.
  - unfold handle_offline.
    set (s1 := emit_event "network:offline" (set_isOnline false s)).
    assert (tracked s1) as Htr1 by (destruct Hwf as (_ & _ & Htr & _); done).
    pose proof (pause_cancels_all s1 Htr1) as Hnil.
    destruct Hwf as (Hr & Hi & Htr & Hoff).
    destruct (clear_all_fields (intervals s1) s1) as (Hi' & Ho' & Hr' & _).
    fold (pauseAutoRefresh s1) in *.
    split; [by rewrite Hr'|]. split; [by rewrite Hi'|]. split; [|done].
    intros t Hin. rewrite Hnil in Hin. by apply elem_of_nil in Hin.
  - destruct Hwf as (Hr & Hi & Htr & Hoff).
    destruct (clear_all_fields (intervals s) s) as (Hi' & _ & Hr' & _).
    assert (live (destroy s) = []) as Hnil by by apply clear_all_cancels.
    split; [by rewrite <- Hr' in Hr|]. split; [apply NoDup_nil_2|].
    split; [|done]. intros t Hin. rewrite Hnil in Hin.
    by apply elem_of_nil in Hin.
Qed.

Lemma reachable_wf s : reachable s -> wf s.
Proof.
  induction 1 as [onLine|c s _ IH Hen]; [|by apply perform_wf].
  split; [|split; [apply NoDup_nil_2|split; [|done]]].
  - simpl. by apply (bool_decide_unpack _).
  - intros t Hin. by apply elem_of_nil in Hin.
Qed.

(** ** The claim *)

(** C3 (as the code has it).  In every reachable state [pauseAutoRefresh]
    cancels every running timer and keeps the configured rates.  A
    following [resumeAutoRefresh] starts, while the service is online,
    exactly one timer for each configured widget whose rate is positive,
    with that rate, in the order of the configuration (and none while it
    is offline).  So the timers that ran before the pause are restored
    whenever they were the configured ones. *)
Theorem pause_resume_restarts_configured s :
  reachable s ->
  active (pauseAutoRefresh s) = [] /\
  refreshRates (pauseAutoRefresh s) = refreshRates s /\
  (isOnline s = true ->
     active (resumeAutoRefresh (pauseAutoRefresh s)) = configured s) /\
  (isOnline s = false ->
     active (resumeAutoRefresh (pauseAutoRefresh s)) = []) /\
  (isOnline s = true ->
     active s ≡ₚ configured s ->
     active (resumeAutoRefresh (pauseAutoRefresh s)) ≡ₚ active s).
Proof.
  intros Hreach. apply reachable_wf in Hreach as (Hr & Hi & Htr & Hoff).
  pose proof (pause_cancels_all s Htr) as Hnil.
  destruct (clear_all_fields (intervals s) s) as (Hi' & Ho' & Hr' & _).
  fold (pauseAutoRefresh s) in *.
  assert (isOnline s = true ->
          active (resumeAutoRefresh (pauseAutoRefresh s)) = configured s) as Hon.
  { intros Ho. unfold resumeAutoRefresh, startAutoRefresh. simpl.
    rewrite start_each_active.
    - unfold active, configured. simpl. by rewrite Hnil, Hr'.
    - simpl. congruence.
    - by rewrite Hr'.
    - done. }
  split; [unfold active; by rewrite Hnil|]. split; [done|].
  split; [done|]. split.
  - intros Ho. unfold resumeAutoRefresh, startAutoRefresh. simpl.
    rewrite start_each_offline; [|simpl; congruence|done].
    unfold active. simpl. by rewrite Hnil.
  - intros Ho Hsame. by rewrite Hon.
Qed.

Lemma initialised_reachable : reachable initialised.
Proof. apply (reachable_call StartAutoRefresh); [apply reachable_new | done]. Qed.

Lemma tasks_stopped_reachable : reachable tasks_stopped.
Proof.
  apply (reachable_call (StopWidgetRefresh "tasks"));
    [apply initialised_reachable | done].
Qed.

Lemma pause_resume_restarts_configured_witness :
  active (resumeAutoRefresh (pauseAutoRefresh initialised))
    = [("announcements", 600000%Z); ("tasks", 300000%Z);
       ("calendar", 600000%Z); ("tickets", 300000%Z)] /\
  active (resumeAutoRefresh (pauseAutoRefresh initialised)) ≡ₚ active initialised.
Proof.
  destruct (pause_resume_restarts_configured initialised
              (reachable_call StartAutoRefresh _ (reachable_new true) I))
    as (_ & _ & Hon & _ & Hsame).
  split; [exact (Hon eq_refl) | exact (Hsame eq_refl (reflexivity _))].
Defined.

(** C3, as stated, fails: after [init()] and [stopWidgetRefresh('tasks')]
    three timers run; after a pause and a resume four do. *)
Lemma pause_resume_starts_stopped_timer :
  reachable tasks_stopped /\
  active tasks_stopped
    = [("announcements", 600000%Z); ("calendar", 600000%Z);
       ("tickets", 300000%Z)] /\
  ~ (active (resumeAutoRefresh (pauseAutoRefresh tasks_stopped))
       ≡ₚ active tasks_stopped).
Proof.
  split; [apply tasks_stopped_reachable|]. split; [reflexivity|].
  intros H. apply Permutation_length in H. vm_compute in H. discriminate.
Qed.

End RealtimeFacts.

(* ===================================================================== *)
(** * Properties of the storage service *)
(* ===================================================================== *)

Module StorageFacts.
Import Storage.

Section Facts.

Variable JSON_stringify : json -> string.
Variable JSON_parse : string -> option json.
Variable accepts : gmap string string -> string -> string -> bool.

Abbreviation getItem := (getItem JSON_parse).
Abbreviation setItem := (setItem JSON_stringify accepts).

(** A key that was never set reads as [null], in both modes. *)
Lemma getItem_unset key st :
  localStorage st !! (prefix +:+ key) = None ->
  memoryStorage st !! (prefix +:+ key) = None ->
  getItem key st = (JNull, st).
Proof.
  intros Hl Hm. unfold Storage.getItem. rewrite Hl, Hm.
  by destruct (isLocalStorageAvailable st).
Qed.

(** A stored string that does not parse reads as [null]. *)
Lemma getItem_corrupt key item st :
  isLocalStorageAvailable st = true ->
  localStorage st !! (prefix +:+ key) = Some item ->
  JSON_parse item = None ->
  (getItem key st).1 = JNull.
Proof.
  intros Ha Hl Hp. unfold Storage.getItem. rewrite Ha, Hl, Hp.
  by destruct (truthy_string item).
Qed.

(** Round trip through localStorage, for a write the browser accepts. *)
Lemma roundtrip_localStorage key v st :
  isLocalStorageAvailable st = true ->
  accepts (localStorage st) (prefix +:+ key) (JSON_stringify v) = true ->
  JSON_parse (JSON_stringify v) = Some v ->
  JSON_stringify v <> "" ->
  (setItem key v st).1 = true /\
  (getItem key (setItem key v st).2).1 = v.
Proof.
  intros Ha Hacc Hp Hne. unfold Storage.setItem, Storage.getItem.
  rewrite Ha, Hacc. simpl. rewrite Ha, lookup_insert_eq.
  unfold truthy_string. destruct (String.eqb_spec (JSON_stringify v) "");
    [done|]. simpl. by rewrite Hp.
Qed.

(** Round trip through the in-memory fallback, for truthy values and
    [null]. *)
Lemma roundtrip_memoryStorage key v st :
  isLocalStorageAvailable st = false ->
  truthy v = true \/ v = JNull ->
  (setItem key v st).1 = true /\
  (getItem key (setItem key v st).2).1 = v.
Proof.
  intros Ha Hv. unfold Storage.setItem, Storage.getItem.
  rewrite Ha. simpl. rewrite Ha, lookup_insert_eq. simpl.
  destruct Hv as [-> | ->]; done.
Qed.

(** With the in-memory fallback every falsy value reads back as [null]. *)
Lemma memoryStorage_falsy key v st :
  isLocalStorageAvailable st = false ->
  truthy v = false ->
  (getItem key (setItem key v st).2).1 = JNull.
Proof.
  intros Ha Hv. unfold Storage.setItem, Storage.getItem.
  rewrite Ha. simpl. by rewrite Ha, lookup_insert_eq, Hv.
Qed.

(** C4, at the failing inputs: with the in-memory fallback, [false], [0]
    and the empty string are stored successfully and read back as
    [null]. *)
Theorem memory_fallback_loses_falsy_values :
  (setItem "k" (JBool false) new_memory_storage).1 = true /\
  (getItem "k" (setItem "k" (JBool false) new_memory_storage).2).1 = JNull /\
  (getItem "k" (setItem "k" (JNumber 0) new_memory_storage).2).1 = JNull /\
  (getItem "k" (setItem "k" (JString "") new_memory_storage).2).1 = JNull.
Proof.
  split; [done|]. repeat split; by apply memoryStorage_falsy.
Qed.

End Facts.

End StorageFacts.

(* ===================================================================== *)
(** * Properties of the base widget *)
(* ===================================================================== *)

Module WidgetFacts.
Import Widget.

(** Proofs about [refresh] compute on a widget given by its fields. *)
Ltac open_widget w :=
  destruct w as [? [? ? ? ? ?] ? ? ? ? ? ? ? ? ? ?];
  cbv beta iota delta
    [name container isInitialized isLoading refreshInterval autoRefreshEnabled
     refreshIntervalMs timers nextHandle awaiting effects activeLoaders
     innerHTML loadingClass retryListeners overlays positionStatic] in *.

Ltac unfold_refresh :=
  cbv beta iota zeta delta
    [refresh_call refresh_resume handleError showErrorState setLoadingState
     showElementLoading hideElementLoading assign_innerHTML perform
     set_container set_isInitialized set_isLoading set_refreshInterval
     set_autoRefreshEnabled set_refreshIntervalMs set_timers set_awaiting
     set_activeLoaders
     name container isInitialized isLoading refreshInterval autoRefreshEnabled
     refreshIntervalMs timers nextHandle awaiting effects activeLoaders
     innerHTML loadingClass retryListeners overlays positionStatic
     fst snd Init.Nat.pred].

(** ** The invariant [inv] *)

Lemma filter_owned id (l : list positive) :
  (forall h, h ∈ l -> h = id) ->
  List.filter (fun h => negb (Pos.eqb h id)) l = [].
Proof.
  induction l as [|x l IH]; simpl; intros H; [done|].
  rewrite (H x) by left. rewrite Pos.eqb_refl. simpl.
  apply IH. intros h Hh. apply H. by right.
Qed.

Lemma stopAutoRefresh_stops w :
  owned w ->
  refreshInterval (stopAutoRefresh w) = None /\
  timers (stopAutoRefresh w) = [] /\
  isLoading (stopAutoRefresh w) = isLoading w /\
  awaiting (stopAutoRefresh w) = awaiting w /\
  container (stopAutoRefresh w) = container w.
Proof.
  unfold owned, stopAutoRefresh. destruct (refreshInterval w) as [id|] eqn:E.
  - intros H. simpl. by rewrite filter_owned.
  - intros H. by rewrite E.
Qed.

Lemma stopAutoRefresh_inv w : inv w -> inv (stopAutoRefresh w).
Proof.
  intros [Ha Ho]. destruct (stopAutoRefresh_stops w Ho) as (Hr & Ht & Hl & Haw & _).
  split; [by rewrite Hl, Haw|]. unfold owned. by rewrite Hr.
Qed.

Lemma startAutoRefresh_inv w : inv w -> inv (startAutoRefresh w).
Proof.
  intros Hinv. unfold startAutoRefresh.
  set (w1 := match refreshInterval w with
             | Some _ => stopAutoRefresh w
             | None => w
             end).
  assert (inv w1 /\ refreshInterval w1 = None /\ timers w1 = [])
    as ([Ha Ho] & Hr & Ht).
  { subst w1. destruct (refreshInterval w) eqn:E.
    - split; [by apply stopAutoRefresh_inv|].
      destruct Hinv as [_ Ho]. by destruct (stopAutoRefresh_stops w Ho) as (? & ? & _).
    - split; [done|]. split; [done|]. destruct Hinv as [_ Ho].
      unfold owned in Ho. by rewrite E in Ho. }
  destruct (autoRefreshEnabled w1 && (0 <? refreshIntervalMs w1)%Z); [|done].
  simpl. split; [done|]. unfold owned. simpl. rewrite Ht. simpl.
  intros h Hh. by apply list_elem_of_singleton in Hh.
Qed.

Lemma step_inv ev w w' : inv w -> step ev w = Some w' -> inv w'.
Proof.
  intros Hinv. destruct ev as [lid|l r| | |ms|b|]; simpl.
  - intros [= <-]. destruct Hinv as [Ha Ho]. open_widget w.
    unfold refresh_call. simpl. destruct isLoading0; unfold_refresh.
    + by split.
    + split; simpl; [by rewrite Ha|done].
  - destruct Hinv as [Ha Ho]. open_widget w.
    destruct awaiting0 as [|n]; [done|]. intros [= <-].
    destruct isLoading0; [|discriminate]. injection Ha as ->.
    destruct l as [|error]; [destruct r as [body|error]|];
      try destruct error; unfold_refresh; by split.
  - intros [= <-]. by apply startAutoRefresh_inv.
  - intros [= <-]. by apply stopAutoRefresh_inv.
  - intros [= <-]. unfold setAutoRefreshInterval.
    assert (inv (set_refreshIntervalMs ms w)) as Hinv1 by done.
    destruct (refreshInterval (set_refreshIntervalMs ms w)); [|done].
    by apply startAutoRefresh_inv, stopAutoRefresh_inv.
  - intros [= <-]. unfold setAutoRefresh.
    assert (inv (set_autoRefreshEnabled b w)) as Hinv1 by done.
    destruct b; [by apply startAutoRefresh_inv | by apply stopAutoRefresh_inv].
  - intros [= <-]. unfold destroy. simpl.
    assert (inv (perform (ConsoleLog "Destroying") w)) as Hinv1 by done.
    apply stopAutoRefresh_inv in Hinv1. done.
Qed.

Lemma run_inv evs : forall w w', inv w -> run evs w = Some w' -> inv w'.
Proof.
  induction evs as [|ev evs IH]; simpl; intros w w' Hinv.
  - by intros [= <-].
  - destruct (step ev w) as [w1|] eqn:E; [|done].
    apply IH. by eapply step_inv.
Qed.

Lemma new_BaseWidget_inv cls el : inv (new_BaseWidget cls el).
Proof. done. Qed.

(** ** The claims *)




(** C6.  In every state a widget reaches, at most one [refresh()] is
    waiting for [loadData], and one is waiting exactly when the loading
    flag is set; while one is waiting, a further call of
    [refresh()] returns at once after writing a log line: it does not throw,
    does not call [loadData] and changes nothing else. *)
Theorem refresh_guard evs cls el w :
  run evs (new_BaseWidget cls el) = Some w ->
  awaiting w <= 1 /\
  (isLoading w = true <-> awaiting w = 1) /\
  (awaiting w = 1 ->
   forall loaderId,
     refresh_call loaderId w
       = (Skipped,
          perform
            (ConsoleLog (name w +:+ " is already loading, skipping refresh")) w)
     /\
     loadData_calls (effects (refresh_call loaderId w).2)
       = loadData_calls (effects w) /\
     awaiting (refresh_call loaderId w).2 = 1).
Proof.
  intros Hrun.
  destruct (run_inv evs _ _ (new_BaseWidget_inv cls el) Hrun) as [Ha _].
  split; [destruct (isLoading w); lia|].
  split; [destruct (isLoading w); split; (done || lia)|].
  intros H1 loaderId. unfold refresh_call.
  destruct (isLoading w); [|lia]. simpl. split; [done|]. split; [|done].
  unfold loadData_calls. rewrite List.filter_app, length_app. simpl. lia.
Qed.

Lemma refresh_guard_witness :
  awaiting tasks_widget_busy = 1 /\
  (refresh_call "loader_2" tasks_widget_busy).1 = Skipped /\
  loadData_calls (effects (refresh_call "loader_2" tasks_widget_busy).2) = 1 /\
  container (refresh_call "loader_2" tasks_widget_busy).2
    = container tasks_widget_busy.
Proof.
  destruct (refresh_guard [StartAutoRefresh; Refresh "loader_1"] "TasksWidget"
              empty_container tasks_widget_busy eq_refl)
    as (_ & _ & H).
  destruct (H eq_refl "loader_2") as (Hskip & Hcalls & _).
  split; [reflexivity|]. rewrite Hskip. split; [done|]. by split.
Defined.

(** C9.  In every state a widget reaches, [destroy()] returns normally
    and leaves no refresh timer running and an empty container (no
    content and no loading overlay); calling it again does the same. *)
Theorem destroy_idempotent evs cls el w :
  run evs (new_BaseWidget cls el) = Some w ->
  let d1 := destroy w in
  let d2 := destroy d1.2 in
  (d1.1 = Return tt /\
   refreshInterval d1.2 = None /\ timers d1.2 = [] /\
   innerHTML (container d1.2) = Blank /\ overlays (container d1.2) = []) /\
  (d2.1 = Return tt /\
   refreshInterval d2.2 = None /\ timers d2.2 = [] /\
   innerHTML (container d2.2) = Blank /\ overlays (container d2.2) = []).
Proof.
  intros Hrun. pose proof (run_inv evs _ _ (new_BaseWidget_inv cls el) Hrun) as Hinv.
  assert (forall w0, inv w0 ->
            (destroy w0).1 = Return tt /\
            refreshInterval (destroy w0).2 = None /\
            timers (destroy w0).2 = [] /\
            innerHTML (container (destroy w0).2) = Blank /\
            overlays (container (destroy w0).2) = []) as Hd.
  { intros w0 [_ Ho]. unfold destroy. simpl.
    assert (owned (perform (ConsoleLog "Destroying") w0)) as Ho1 by done.
    destruct (stopAutoRefresh_stops _ Ho1) as (Hr & Ht & _). done. }
  simpl. split; [by apply Hd|]. apply Hd.
  by apply (step_inv DestroyWidget w).
Qed.

Lemma destroy_idempotent_witness :
  timers tasks_widget_busy = [1%positive] /\
  overlays (container tasks_widget_busy) = ["loader_1"] /\
  let d1 := destroy tasks_widget_busy in
  let d2 := destroy d1.2 in
  (d1.1 = Return tt /\
   refreshInterval d1.2 = None /\ timers d1.2 = [] /\
   innerHTML (container d1.2) = Blank /\ overlays (container d1.2) = []) /\
  (d2.1 = Return tt /\
   refreshInterval d2.2 = None /\ timers d2.2 = [] /\
   innerHTML (container d2.2) = Blank /\ overlays (container d2.2) = []).
Proof.
  split; [reflexivity|]. split; [reflexivity|].
  apply (destroy_idempotent [StartAutoRefresh; Refresh "loader_1"] "TasksWidget"
           empty_container tasks_widget_busy).
  reflexivity.
Defined.

End WidgetFacts.

(* ===================================================================== *)
(** * Further properties of the event bus *)
(* ===================================================================== *)

Module EventBusMore.
Import EventBus EventBusFacts.

Section More.

Context {Arg : Type}.
Variable code : nat -> list Arg -> list (@action Arg).
Abbreviation bus := (@bus Arg).

Lemma indexOf_first x l1 l2 :
  x ∉ l1 -> indexOf x (l1 ++ x :: l2) = Some (length l1).
Proof.
  induction l1 as [|y l1 IH]; simpl; intros Hnin.
  - by rewrite decide_True.
  - apply not_elem_of_cons in Hnin as [Hne Hnin].
    rewrite decide_False by done. by rewrite IH.
Qed.

Lemma delete_middle {A} (l1 l2 : list A) x :
  delete (length l1) (l1 ++ x :: l2) = l1 ++ l2.
Proof. induction l1 as [|y l1 IH]; simpl; [done | by rewrite IH]. Qed.

Lemma indexOf_split x l i :
  indexOf x l = Some i ->
  exists l1 l2, l = l1 ++ x :: l2 /\ (x ∉ l1) /\ i = length l1.
Proof.
  revert i. induction l as [|y l IH]; simpl; intros i H; [done|].
  destruct (decide (x = y)) as [->|Hne].
  - injection H as <-. exists [], l. repeat split. apply not_elem_of_nil.
  - destruct (indexOf x l) as [j|]; [|done]. injection H as <-.
    destruct (IH j eq_refl) as (l1 & l2 & -> & Hnin & ->).
    exists (y :: l1), l2. repeat split. by apply not_elem_of_cons.
Qed.

Lemma off_drops_empty_name e cb (b : bus) :
  (off e cb b).1 = true ->
  listenersOf e (off e cb b).2 = [] ->
  events (off e cb b).2 !! e = None.
Proof.
  unfold off, listenersOf. destruct (events b !! e) as [ls|] eqn:E; [|done].
  destruct (indexOf cb ls) as [i|]; [|done]. simpl. intros _.
  destruct (splice1 i ls) as [|x l'] eqn:El; simpl.
  - by rewrite lookup_delete_eq.
  - by rewrite lookup_insert_eq.
Qed.

(** X1.  [off] returns [true] exactly when the callback is registered
    under the event name.  It then removes the earliest registration of
    that callback and nothing else, and leaves the other event names as
    they are; when it removes the last listener of the name, the name is
    dropped from the registry. *)
Theorem off_removes_earliest_registration e cb (b : bus) :
  ((off e cb b).1 = true <-> cb ∈ listenersOf e b) /\
  (forall e', e' <> e -> listenersOf e' (off e cb b).2 = listenersOf e' b) /\
  ((cb ∉ listenersOf e b) -> listenersOf e (off e cb b).2 = listenersOf e b) /\
  (forall l1 l2,
      listenersOf e b = l1 ++ cb :: l2 -> (cb ∉ l1) ->
      listenersOf e (off e cb b).2 = l1 ++ l2 /\
      (l1 ++ l2 = [] -> has e (off e cb b).2 = false)).
Proof.
  destruct (listenersOf_off e cb b)
    as [(Hf & Hnin & Hsame)|(i & Ht & Hi & He & Hother)].
  - split; [rewrite Hf; split; [done | intros; done]|].
    split; [intros e' _; apply Hsame|]. split; [intros _; apply Hsame|].
    intros l1 l2 Hl Hl1. destruct Hnin. rewrite Hl. set_solver.
  - split.
    { rewrite Ht. split; [intros _|done].
      apply indexOf_split in Hi as (l1 & l2 & -> & _). set_solver. }
    split; [done|]. split.
    { intros Hnin. apply indexOf_None in Hnin. congruence. }
    intros l1 l2 Hl Hl1. rewrite He, Hl, indexOf_first in * by done.
    injection Hi as <-. rewrite delete_middle in He. rewrite delete_middle.
    split; [done|]. intros Hnil. unfold has.
    apply bool_decide_eq_false. rewrite off_drops_empty_name; [|done|congruence].
    by intros [? ?].
Qed.

(** X2.  Subscribing a function that is not yet registered under the
    event name, below the cap, and unsubscribing it again gives back the
    listener lists of all event names; an event name that was unknown
    before is unknown again. *)
Theorem on_then_off_restores e cb (b : bus) :
  is_function cb = true ->
  listenerCount e b < maxListeners b ->
  (cb ∉ listenersOf e b) ->
  (on e cb b).1 = Return true /\
  (off e cb (on e cb b).2).1 = true /\
  (forall e', listenersOf e' (off e cb (on e cb b).2).2 = listenersOf e' b) /\
  (has e b = false -> has e (off e cb (on e cb b).2).2 = false).
Proof.
  intros Hf Hlt Hnin.
  destruct (on_function e cb b Hf) as [_ [(Hle & _)|(_ & Hr & He & Hother)]];
    [lia|].
  split; [done|].
  destruct (listenersOf_off e cb (on e cb b).2)
    as [(_ & Habs & _)|(i & Ht & Hi & He' & Hother')].
  { destruct Habs. rewrite He. set_solver. }
  rewrite He, indexOf_first in Hi by done. injection Hi as <-.
  rewrite He, delete_middle, app_nil_r in He'.
  assert (forall e', listenersOf e' (off e cb (on e cb b).2).2 = listenersOf e' b)
    as Hall.
  { intros e'. destruct (decide (e' = e)) as [->|Hne]; [done|].
    by rewrite Hother', Hother. }
  split; [done|]. split; [done|].
  unfold has. rewrite !bool_decide_eq_false. intros Hnone.
  rewrite off_drops_empty_name; [by intros [? ?]|done|].
  rewrite Hall. unfold listenersOf.
  destruct (events b !! e) eqn:E; [|done]. destruct Hnone. eauto.
Qed.

(** ** No dead event names *)

Lemma on_keeps_names e cb (b : bus) : keeps_names b (on e cb b).2.
Proof.
  unfold on. destruct (negb (is_function cb)); [by split|].
  destruct (events b !! e) as [ls|] eqn:E; simpl.
  - rewrite E. simpl. destruct (maxListeners b <=? length ls); simpl.
    + by split.
    + split; [done|]. intros _ Hne e' l. simpl.
      destruct (decide (e = e')) as [<-|Hd].
      * rewrite lookup_insert_eq. intros [= <-]. by destruct ls.
      * rewrite lookup_insert_ne by done. apply Hne.
  - rewrite lookup_insert_eq. simpl.
    destruct (Nat.leb_spec (maxListeners b) 0); simpl.
    + split; [done|]. lia.
    + split; [done|]. intros _ Hne e' l. simpl.
      destruct (decide (e = e')) as [<-|Hd].
      * rewrite lookup_insert_eq. by intros [= <-].
      * rewrite !lookup_insert_ne by done. apply Hne.
Qed.

Lemma off_keeps_names e cb (b : bus) : keeps_names b (off e cb b).2.
Proof.
  unfold off. destruct (events b !! e) as [ls|] eqn:E; [|by split].
  destruct (indexOf cb ls) as [i|]; [|by split]. simpl.
  destruct (splice1 i ls) as [|x l'] eqn:El; simpl.
  - split; [done|]. intros _ Hne e' l. simpl.
    destruct (decide (e = e')) as [<-|Hd].
    + by rewrite lookup_delete_eq.
    + rewrite lookup_delete_ne by done. apply Hne.
  - split; [done|]. intros _ Hne e' l. simpl.
    destruct (decide (e = e')) as [<-|Hd].
    + rewrite lookup_insert_eq. by intros [= <-].
    + rewrite lookup_insert_ne by done. apply Hne.
Qed.

Lemma removeAll_keeps_names e (b : bus) :
  keeps_names b (removeAllListeners e b).2.
Proof.
  destruct e as [[|a s]|]; simpl; (split; [done|]); intros _ Hne e' l; simpl;
    try by rewrite lookup_empty.
  destruct (decide (String a s = e')) as [<-|Hd].
  - by rewrite lookup_delete_eq.
  - rewrite lookup_delete_ne by done. apply Hne.
Qed.

Lemma keeps_names_trans (b1 b2 b3 : bus) :
  keeps_names b1 b2 -> keeps_names b2 b3 -> keeps_names b1 b3.
Proof.
  intros [H1 H1'] [H2 H2']. split; [congruence|].
  intros Hm Hn. apply H2'; [lia | by apply H1'].
Qed.

Lemma emit_keeps_names fuel e args (b : bus) r b' :
  emit code fuel e args b = Some (r, b') -> keeps_names b b'.
Proof.
  apply emit_R; first [ by split | apply keeps_names_trans
    | apply on_keeps_names | apply off_keeps_names
    | apply removeAll_keeps_names ].
Qed.

Lemma program_keeps_names fuel prog (b : bus) c b' :
  run_body (emit code fuel) prog b = Some (c, b') -> keeps_names b b'.
Proof.
  apply run_body_R; first [ by split | apply keeps_names_trans
    | apply on_keeps_names | apply off_keeps_names
    | apply removeAll_keeps_names
    | intros e0 args0 b0 r0 b0'; apply emit_keeps_names ].
Qed.

(** X3.  Starting from a bus without listeners whose cap is at least 1
    (it is 50 for a new bus), after any sequence of [on], [once], [off],
    [removeAllListeners] and [emit] calls the registry knows an event name
    exactly when that name has a listener: no name is kept with an empty
    list. *)
Theorem registry_keeps_no_dead_names fuel prog c (b0 b : bus) :
  events b0 = ∅ ->
  1 <= maxListeners b0 ->
  run_body (emit code fuel) prog b0 = Some (c, b) ->
  forall e, has e b = true <-> 0 < listenerCount e b.
Proof.
  intros Hempty Hcap Hrun e.
  apply program_keeps_names in Hrun as [_ Hkeep].
  assert (no_empty_names b) as Hne.
  { apply Hkeep; [done|]. intros e' l. by rewrite Hempty, lookup_empty. }
  unfold has, listenerCount. rewrite bool_decide_eq_true.
  destruct (events b !! e) as [l|] eqn:E.
  - split; [intros _|eauto]. specialize (Hne e l E). destruct l; simpl; [done|lia].
  - split; [by intros [? ?] | lia].
Qed.

(** X4.  [removeAllListeners] with a non-empty event name removes the
    listeners of that name only and returns whether the name was known;
    without an argument, and also with the empty string as event name, it
    removes the listeners of every event name and returns [true]. *)
Theorem removeAllListeners_scope (b : bus) :
  (forall a s,
      let e := String a s in
      (removeAllListeners (Some e) b).1 = has e b /\
      listenersOf e (removeAllListeners (Some e) b).2 = [] /\
      forall e', e' <> e ->
        listenersOf e' (removeAllListeners (Some e) b).2 = listenersOf e' b) /\
  (forall arg, arg = None \/ arg = Some "" ->
      (removeAllListeners arg b).1 = true /\
      forall e', listenersOf e' (removeAllListeners arg b).2 = [] /\
                 has e' (removeAllListeners arg b).2 = false).
Proof.
  split.
  - intros a s e. unfold removeAllListeners, listenersOf, has. simpl.
    split; [done|]. split; [by rewrite lookup_delete_eq|].
    intros e' Hne. by rewrite lookup_delete_ne.
  - intros arg [-> | ->]; (split; [done|]); intros e';
      unfold listenersOf, has; simpl; rewrite lookup_empty;
      (split; [done|]); apply bool_decide_eq_false; by intros [? ?].
Qed.

(** X5.  [setMaxListeners] throws for a number below 1 and changes
    nothing.  Otherwise it only replaces the cap: every listener stays
    registered, also when there are more of them than the new cap, and from
    then on [on] accepts a function exactly while the event name has fewer
    listeners than the new cap. *)
Theorem setMaxListeners_keeps_listeners max (b : bus) :
  ((max < 1)%Z ->
     setMaxListeners max b
       = (Throw (Error "Max listeners must be a positive number"), b)) /\
  ((1 <= max)%Z ->
     (setMaxListeners max b).1 = Return tt /\
     events (setMaxListeners max b).2 = events b /\
     maxListeners (setMaxListeners max b).2 = Z.to_nat max /\
     forall e cb, is_function cb = true ->
       ((on e cb (setMaxListeners max b).2).1 = Return true <->
        listenerCount e b < Z.to_nat max)).
Proof.
  unfold setMaxListeners. split; intros Hmax.
  - by rewrite (proj2 (Z.ltb_lt _ _) Hmax).
  - rewrite (proj2 (Z.ltb_ge _ _) Hmax). simpl. repeat split; try done.
    + intros Hon.
      destruct (on_function e cb
                  (Bus (events b) (Z.to_nat max) (nextWrapper b) (history b)
                     (console b)) H)
        as [_ [(_ & Hr & _)|(Hlt & _)]]; [congruence | exact Hlt].
    + intros Hlt.
      destruct (on_function e cb
                  (Bus (events b) (Z.to_nat max) (nextWrapper b) (history b)
                     (console b)) H)
        as [_ [(Hle & _)|(_ & Hr & _)]]; [|done].
      unfold listenerCount in *. simpl in *. lia.
Qed.

(** ** Termination *)

Lemma emit_fuel_irrelevant fuel : forall e args (b : bus) x,
  emit code 1 e args b = Some x -> emit code (S fuel) e args b = Some x.
Proof.
  induction fuel as [|fuel IH]; intros e args b x H; [done|].
  by apply emit_more_fuel, IH.
Qed.

(** X6.  When no listener body emits an event itself, [emit] needs no
    nesting: it returns a result with one unit of fuel, and the same
    result with any larger amount. *)
Theorem emit_terminates_without_reentrancy fuel e args (b : bus) :
  no_reentrant_emit code ->
  exists r b',
    emit code 1 e args b = Some (r, b') /\
    emit code (S fuel) e args b = Some (r, b').
Proof.
  intros Hne. destruct (emit_total code 0 e args b Hne) as [[r b'] H].
  exists r, b'. split; [done | by apply emit_fuel_irrelevant].
Qed.

(** ** Cancelling a [once] subscription *)

Lemma value_not_own_wrapper (cb : value) : forall u e, cb <> VOnce u e cb.
Proof.
  induction cb as [id|u' e' cb' IH|]; intros u e H; try discriminate.
  injection H as _ _ H. by apply (IH u' e').
Qed.

(** X25.  A subscription made with [once] cannot be cancelled with the
    callback that was passed: [once] registers a wrapper of its own, so,
    unless the callback is also registered directly, [off] with the
    callback finds nothing, returns [false] and leaves the subscription in
    place. *)
Theorem off_misses_once_subscription e cb (b : bus) :
  listenerCount e b < maxListeners b ->
  (cb ∉ listenersOf e b) ->
  (once e cb b).1 = Return true /\
  listenersOf e (once e cb b).2
    = listenersOf e b ++ [VOnce (nextWrapper b) e cb] /\
  (off e cb (once e cb b).2).1 = false /\
  (forall e', listenersOf e' (off e cb (once e cb b).2).2
              = listenersOf e' (once e cb b).2).
Proof.
  intros Hlt Hnin.
  destruct (once_returns e cb b) as [_ [(Hle & _)|(_ & Hr & He & _)]]; [lia|].
  split; [done|]. split; [done|].
  assert (cb ∉ listenersOf e (once e cb b).2) as Hnin'.
  { rewrite He, not_elem_of_app. split; [done|].
    rewrite list_elem_of_singleton. apply value_not_own_wrapper. }
  destruct (listenersOf_off e cb (once e cb b).2)
    as [(Hf & _ & Hsame)|(i & _ & Hi & _)]; [done|].
  apply indexOf_None in Hnin'. congruence.
Qed.

End More.

Lemma on_then_off_restores_witness :
  (on "q" (VFunc 7) two_listeners).1 = Return true /\
  (off "q" (VFunc 7) (on "q" (VFunc 7) two_listeners).2).1 = true /\
  (forall e',
      listenersOf e' (off "q" (VFunc 7) (on "q" (VFunc 7) two_listeners).2).2
      = listenersOf e' two_listeners) /\
  (has "q" two_listeners = false ->
   has "q" (off "q" (VFunc 7) (on "q" (VFunc 7) two_listeners).2).2 = false).
Proof.
  apply (on_then_off_restores "q" (VFunc 7) two_listeners).
  - reflexivity.
  - vm_compute. lia.
  - vm_compute. apply not_elem_of_nil.
Defined.

Lemma registry_keeps_no_dead_names_witness :
  exists b,
    run_body (emit unsubscriber 1)
      [DoOn "e" (VFunc 0); DoOn "e" (VFunc 1); DoEmit "e" []; DoOff "e" (VFunc 0)]
      new_EventBus = Some (Return tt, b) /\
    forall e, has e b = true <-> 0 < listenerCount e b.
Proof.
  eexists. split; [vm_compute; reflexivity|].
  apply (registry_keeps_no_dead_names unsubscriber 1
           [DoOn "e" (VFunc 0); DoOn "e" (VFunc 1); DoEmit "e" [];
            DoOff "e" (VFunc 0)] (Return tt) new_EventBus).
  - reflexivity.
  - vm_compute. lia.
  - vm_compute. reflexivity.
Defined.

Lemma emit_terminates_without_reentrancy_witness :
  exists r b',
    emit unsubscriber 1 "e" [] two_listeners = Some (r, b') /\
    emit unsubscriber 4 "e" [] two_listeners = Some (r, b').
Proof.
  apply (emit_terminates_without_reentrancy unsubscriber 3 "e" [] two_listeners).
  intros [|id] args; reflexivity.
Defined.

Lemma off_misses_once_subscription_witness :
  (off "e" (VFunc 7) (once "e" (VFunc 7) two_listeners).2).1 = false /\
  listenersOf "e" (off "e" (VFunc 7) (once "e" (VFunc 7) two_listeners).2).2
    = [VFunc 0; VFunc 1; VOnce 0 "e" (VFunc 7)].
Proof.
  destruct (off_misses_once_subscription "e" (VFunc 7) two_listeners)
    as (_ & He & Hf & Hsame).
  - vm_compute. lia.
  - by apply (bool_decide_unpack _).
  - split; [exact Hf|]. by rewrite Hsame, He.
Defined.

End EventBusMore.

(* ===================================================================== *)
(** * Further properties of the real-time service *)
(* ===================================================================== *)

Module RealtimeMore.
Import Realtime RealtimeFacts.

Lemma NoDup_fmap_filter {A B} (f : A -> B) (P : A -> bool) (l : list A) :
  NoDup (f <$> l) -> NoDup (f <$> List.filter P l).
Proof.
  induction l as [|x l IH]; simpl; [done|].
  rewrite NoDup_cons. intros [Hnin Hnd]. destruct (P x); simpl; [|by apply IH].
  apply NoDup_cons. split; [|by apply IH].
  intros Hin. apply Hnin. apply list_elem_of_fmap in Hin as (y & -> & Hy).
  apply list_elem_of_fmap. exists y. split; [done|].
  apply list_elem_of_In, filter_In in Hy as [Hy _]. by apply list_elem_of_In.
Qed.

Lemma table_delete_subset {V} k (t : list (string * V)) x :
  x ∈ table_delete k t -> x ∈ t.
Proof.
  induction t as [|[k1 v1] t IH]; simpl; [done|].
  destruct (String.eqb k k1); [by right|].
  intros Hin. apply elem_of_cons in Hin as [->|Hin]; [left | right; by apply IH].
Qed.

Lemma table_delete_values {V} k (t : list (string * V)) :
  NoDup t.*2 -> NoDup (table_delete k t).*2.
Proof.
  induction t as [|[k1 v1] t IH]; simpl; [done|].
  rewrite NoDup_cons. intros [Hnin Hnd]. destruct (String.eqb k k1); [done|].
  simpl. apply NoDup_cons. split; [|by apply IH].
  intros Hin. apply Hnin. apply list_elem_of_fmap in Hin as (x & -> & Hx).
  apply list_elem_of_fmap. exists x. split; [done|]. by eapply table_delete_subset.
Qed.

Lemma table_set_absent {V} k (v : V) t :
  table_get k t = None -> table_set k v t = t ++ [(k, v)].
Proof.
  induction t as [|[k1 v1] t IH]; simpl; [done|].
  destruct (String.eqb k k1); [done|]. intros H. by rewrite IH.
Qed.

Lemma same_value_same_key {V} (t : list (string * V)) k1 k2 v :
  NoDup t.*2 -> (k1, v) ∈ t -> (k2, v) ∈ t -> k1 = k2.
Proof.
  induction t as [|[k0 v0] t IH]; simpl; intros Hnd H1 H2.
  - by apply elem_of_nil in H1.
  - apply NoDup_cons in Hnd as [Hnin Hnd].
    apply elem_of_cons in H1 as [[= -> ->]|H1];
      apply elem_of_cons in H2 as [[= ->]|H2]; try done.
    + destruct Hnin. apply list_elem_of_fmap. by exists (k2, v0).
    + subst. destruct Hnin. apply list_elem_of_fmap. by exists (k1, v0).
    + by apply IH.
Qed.

Lemma clearInterval_one_timer id s : one_timer s -> one_timer (clearInterval id s).
Proof.
  intros (H1 & H2 & H3 & H4 & H5). repeat split; try done.
  - intros t Hin. apply elem_of_clearInterval in Hin as [Hin _]. by apply H1.
  - intros t Hin. apply elem_of_clearInterval in Hin as [Hin _]. by apply H2.
  - by apply NoDup_fmap_filter.
Qed.

Lemma clear_all_one_timer ids : forall s, one_timer s -> one_timer (clear_all ids s).
Proof.
  induction ids as [|[k id] ids IH]; intros s H; simpl; [done|].
  by apply IH, clearInterval_one_timer.
Qed.

Lemma stopWidgetRefresh_one_timer name s :
  one_timer s -> one_timer (stopWidgetRefresh name s).
Proof.
  intros Hone. unfold stopWidgetRefresh.
  destruct (table_get name (intervals s)) as [id|] eqn:E; [|done].
  pose proof (clearInterval_one_timer id s Hone) as (H1 & H2 & H3 & H4 & H5).
  split; [|split; [exact H2 | split; [exact H3|split]]].
  - intros t Hin. simpl. pose proof (H1 t Hin) as Ht. simpl in Ht.
    change (t ∈ live (clearInterval id s)) in Hin.
    apply elem_of_clearInterval in Hin as [_ Hne].
    rewrite table_get_delete_ne; [done|]. intros Heq. rewrite Heq in E. congruence.
  - intros k id' Hin. simpl in *. apply (H4 k). by eapply table_delete_subset.
  - simpl. by apply table_delete_values.
Qed.

Lemma stopWidgetRefresh_nextHandle name s :
  nextHandle (stopWidgetRefresh name s) = nextHandle s.
Proof. unfold stopWidgetRefresh. by destruct (table_get name (intervals s)). Qed.

Lemma startWidgetRefresh_one_timer name i s :
  wf s -> one_timer s -> one_timer (startWidgetRefresh name i s).
Proof.
  intros Hwf Hone. destruct (stopWidgetRefresh_wf name s Hwf) as [_ Hnone].
  pose proof (stopWidgetRefresh_one_timer name s Hone) as (H1 & H2 & H3 & H4 & H5).
  destruct (startWidgetRefresh_cases name i s)
    as [(_ & _ & ->)|(_ & ->)]; [|done].
  rewrite (table_set_absent _ _ _ Hnone).
  split; [|split; [|split; [|split]]]; simpl.
  - intros t Hin. rewrite <- (table_set_absent _ _ _ Hnone).
    apply elem_of_app in Hin as [Hin|Hin].
    + rewrite table_get_set_ne; [by apply H1|].
      intros Heq. specialize (H1 t Hin). rewrite <- Heq in H1. congruence.
    + apply list_elem_of_singleton in Hin as ->. simpl. apply table_get_set_eq.
  - intros t Hin. apply elem_of_app in Hin as [Hin|Hin].
    + specialize (H2 t Hin). lia.
    + apply list_elem_of_singleton in Hin as ->. simpl. lia.
  - rewrite fmap_app. simpl. apply NoDup_app. split; [done|].
    split; [|apply NoDup_singleton].
    intros h Hh Hh'. apply list_elem_of_singleton in Hh' as ->.
    apply list_elem_of_fmap in Hh as (t & Ht & Hin).
    specialize (H2 t Hin). lia.
  - intros k id Hin. apply elem_of_app in Hin as [Hin|Hin].
    + specialize (H4 k id Hin). lia.
    + apply list_elem_of_singleton in Hin as [= -> ->]. lia.
  - rewrite fmap_app. simpl. apply NoDup_app. split; [done|].
    split; [|apply NoDup_singleton].
    intros h Hh Hh'. apply list_elem_of_singleton in Hh' as ->.
    apply list_elem_of_fmap in Hh as ([k id] & Ht & Hin). simpl in Ht. subst.
    specialize (H4 _ _ Hin). lia.
Qed.

Lemma start_each_one_timer rates : forall s,
  wf s -> one_timer s -> one_timer (start_each rates s).
Proof.
  induction rates as [|[w i] rates IH]; intros s Hwf Hone; simpl; [done|].
  destruct (0 <? i)%Z; [|by apply IH].
  apply IH; [by apply startWidgetRefresh_wf | by apply startWidgetRefresh_one_timer].
Qed.

Lemma fresh_one_timer s : live s = [] -> intervals s = [] -> one_timer s.
Proof.
  intros Hnil Hi. repeat split; rewrite ?Hnil, ?Hi; try apply NoDup_nil_2;
    intros; by match goal with H : _ ∈ [] |- _ => apply elem_of_nil in H end.
Qed.

Lemma perform_one_timer c s :
  wf s -> one_timer s -> enabled c s -> one_timer (perform c s).
Proof.
  intros Hwf Hone Hen. destruct c as [|w i|w| |w i| | |]; simpl.
  - by apply start_each_one_timer.
  - by apply startWidgetRefresh_one_timer.
  - by apply stopWidgetRefresh_one_timer.
  - by apply clear_all_one_timer.
  - unfold setRefreshRate.
    assert (wf (set_refreshRates (table_set w i (refreshRates s)) s)) as Hwf1.
    { destruct Hwf as (Hr & Hi & Htr). split; [by apply table_set_keys|done]. }
    destruct (0 <? i)%Z;
      [by apply startWidgetRefresh_one_timer | by apply stopWidgetRefresh_one_timer].
  - simpl in Hen. destruct Hwf as (Hr & Hi & Htr & Hoff).
    unfold handle_online, resumeAutoRefresh, startAutoRefresh.
    apply start_each_one_timer.
    + split; [done|]. split; [apply NoDup_nil_2|]. split; [|done].
      intros t Hin. simpl in Hin. rewrite (Hoff Hen) in Hin.
      by apply elem_of_nil in Hin.
    + apply fresh_one_timer; simpl; [by apply Hoff | done].
  - by apply clear_all_one_timer.
  - apply fresh_one_timer; [|done]. destruct Hwf as (_ & _ & Htr & _).
    by apply clear_all_cancels.
Qed.

Lemma reachable_one_timer s : reachable s -> one_timer s.
Proof.
  induction 1 as [onLine|c s Hreach IH Hen].
  - by apply fresh_one_timer.
  - apply perform_one_timer; [by apply reachable_wf|done|done].
Qed.

(** ** What starting and stopping one widget's timer does *)

Lemma filter_all {A} (P : A -> bool) (l : list A) :
  (forall x, x ∈ l -> P x = true) -> List.filter P l = l.
Proof.
  induction l as [|x l IH]; simpl; intros H; [done|].
  rewrite (H x) by left. f_equal. apply IH. intros y Hy. apply H. by right.
Qed.

Lemma stopWidgetRefresh_live name s :
  one_timer s -> live (stopWidgetRefresh name s) = others name (live s).
Proof.
  intros (H1 & H2 & H3 & H4 & H5). unfold stopWidgetRefresh, others.
  destruct (table_get name (intervals s)) as [id|] eqn:E; simpl.
  - apply List.filter_ext_in. intros t Hin. apply list_elem_of_In in Hin.
    f_equal. pose proof (H1 t Hin) as Ht.
    destruct (Pos.eqb_spec (handle t) id) as [Hid|Hid];
      destruct (String.eqb_spec (widget t) name) as [Hw|Hw]; try done.
    + destruct Hw. apply table_get_Some in Ht, E. rewrite Hid in Ht.
      apply (same_value_same_key _ _ _ _ H5 Ht E).
    + rewrite Hw in Ht. congruence.
  - symmetry. apply filter_all. intros t Hin. pose proof (H1 t Hin) as Ht.
    destruct (String.eqb_spec (widget t) name) as [Hw|Hw]; [|done].
    rewrite Hw in Ht. congruence.
Qed.

Lemma startWidgetRefresh_live name i s :
  one_timer s ->
  live (startWidgetRefresh name i s)
    = others name (live s)
      ++ (if isOnline s && (0 <? i)%Z then [Timer (nextHandle s) name i] else []).
Proof.
  intros Hone. rewrite <- (stopWidgetRefresh_live name s Hone).
  rewrite <- (stopWidgetRefresh_nextHandle name s).
  destruct (startWidgetRefresh_cases name i s)
    as [(-> & Hpos & ->)|(Hno & ->)]; simpl.
  - by rewrite (proj2 (Z.ltb_lt _ _) Hpos).
  - assert (isOnline s && (0 <? i)%Z = false) as ->.
    { destruct Hno as [-> | Hle]; [done|].
      rewrite (proj2 (Z.ltb_ge _ _) Hle). apply andb_false_r. }
    by rewrite app_nil_r.
Qed.

Lemma others_timers_of name l :
  List.filter (fun t => String.eqb (widget t) name) (others name l) = [].
Proof.
  unfold others. induction l as [|t l IH]; simpl; [done|].
  destruct (String.eqb (widget t) name) eqn:E; simpl; [done|]. by rewrite E.
Qed.

Lemma others_idem name l : others name (others name l) = others name l.
Proof.
  unfold others. induction l as [|t l IH]; simpl; [done|].
  destruct (String.eqb (widget t) name) eqn:E; simpl; [done|].
  by rewrite E, IH.
Qed.

Lemma replaced_timer name l (c : bool) t :
  widget t = name ->
  others name (others name l ++ (if c then [t] else [])) = others name l /\
  List.filter (fun t => String.eqb (widget t) name)
    (others name l ++ (if c then [t] else []))
    = (if c then [t] else []).
Proof.
  intros Hw. split.
  - unfold others at 1. rewrite List.filter_app. fold (others name (others name l)).
    rewrite others_idem. destruct c; simpl; [|by rewrite app_nil_r].
    by rewrite Hw, String.eqb_refl, app_nil_r.
  - rewrite List.filter_app, others_timers_of. destruct c; simpl; [|done].
    by rewrite Hw, String.eqb_refl.
Qed.

(** ** A connectivity loss followed by a reconnection *)

Lemma offline_online_cycle s :
  wf s ->
  let s1 := handle_offline s in
  let s2 := handle_online s1 in
  live s1 = [] /\ isOnline s1 = false /\
  isOnline s2 = true /\
  active s2 = configured s /\
  emitted s2 = emitted s ++ ["network:offline"; "network:online"].
Proof.
  intros (Hr & Hi & Htr & Hoff). simpl.
  set (s0 := emit_event "network:offline" (set_isOnline false s)).
  assert (tracked s0) as Htr0 by done.
  pose proof (pause_cancels_all s0 Htr0) as Hnil.
  destruct (clear_all_fields (intervals s0) s0) as (Hi' & Ho' & Hr' & Hn' & He').
  fold (pauseAutoRefresh s0) in *. unfold handle_offline. fold s0.
  split; [done|]. split; [by rewrite Ho'|].
  unfold handle_online, resumeAutoRefresh, startAutoRefresh. simpl.
  set (s3 := set_intervals [] _).
  assert (wf s3) as Hwf3.
  { subst s3. split; [simpl; by rewrite Hr'|]. split; [apply NoDup_nil_2|].
    split; [|done].
    intros t Hin. simpl in Hin. rewrite Hnil in Hin. by apply elem_of_nil in Hin. }
  destruct (start_each_wf (refreshRates (pauseAutoRefresh s0)) s3 Hwf3)
    as (_ & Ho3 & _).
  split; [by rewrite Ho3|]. split.
  - rewrite start_each_active; simpl; [|done|by rewrite Hr'|done].
    unfold active, configured. simpl. by rewrite Hnil, Hr'.
  - clear -He'. subst s3.
    assert (forall rates x, emitted (start_each rates x) = emitted x) as Hem.
    { induction rates as [|[w i] rates IH]; intros x; simpl; [done|].
      destruct (0 <? i)%Z; [|apply IH]. rewrite IH.
      destruct (startWidgetRefresh_cases w i x) as [(_ & _ & ->)|(_ & ->)];
        simpl; unfold stopWidgetRefresh;
        by destruct (table_get w (intervals x)). }
    rewrite Hem. simpl. rewrite He'. simpl. by rewrite <- app_assoc.
Qed.

Lemma NoDup_widgets (tbl : list (string * positive)) (l : list timer) :
  (forall t, t ∈ l -> table_get (widget t) tbl = Some (handle t)) ->
  NoDup (handle <$> l) -> NoDup (widget <$> l).
Proof.
  induction l as [|t l IH]; simpl; intros H1 H3; [apply NoDup_nil_2|].
  apply NoDup_cons in H3 as [Hnin Hnd]. apply NoDup_cons. split.
  - intros Hin. apply list_elem_of_fmap in Hin as (t' & Hw & Hin').
    apply Hnin. apply list_elem_of_fmap. exists t'. split; [|done].
    pose proof (H1 t (list_elem_of_here _ _)) as E1.
    pose proof (H1 t' (list_elem_of_further _ _ _ Hin')) as E2.
    rewrite Hw in E1. congruence.
  - apply IH; [|done]. intros t' Hin'. apply H1. by right.
Qed.

(** X7.  In every reachable state at most one timer runs for each widget
    name, and it is the one recorded for that name in [intervals]. *)
Theorem at_most_one_timer_per_widget s :
  reachable s ->
  NoDup (widget <$> live s) /\
  (forall t, t ∈ live s -> table_get (widget t) (intervals s) = Some (handle t)).
Proof.
  intros Hreach.
  pose proof (reachable_one_timer s Hreach) as (H1 & H2 & H3 & _).
  split; [by eapply NoDup_widgets | done].
Qed.

Lemma at_most_one_timer_per_widget_witness :
  NoDup (widget <$> live tasks_stopped) /\
  (forall t, t ∈ live tasks_stopped ->
     table_get (widget t) (intervals tasks_stopped) = Some (handle t)).
Proof.
  apply (at_most_one_timer_per_widget tasks_stopped).
  exact tasks_stopped_reachable.
Defined.

(** X8.  In a reachable state, [startWidgetRefresh(name, interval)]
    replaces whatever timer ran for [name]: the timers of the other
    widgets are untouched and, when the service is online and the interval
    is positive, exactly one timer with that interval runs for [name];
    otherwise none does. *)
Theorem startWidgetRefresh_replaces_timer name i s :
  reachable s ->
  let s' := startWidgetRefresh name i s in
  others name (live s') = others name (live s) /\
  timers_of name s'
    = (if isOnline s && (0 <? i)%Z then [Timer (nextHandle s) name i] else []).
Proof.
  intros Hreach. simpl. unfold timers_of.
  rewrite (startWidgetRefresh_live name i s (reachable_one_timer s Hreach)).
  by apply replaced_timer.
Qed.

Lemma startWidgetRefresh_replaces_timer_witness :
  timers_of "tasks" (startWidgetRefresh "tasks" 1000 initialised)
    = [Timer 5 "tasks" 1000] /\
  length (live (startWidgetRefresh "tasks" 1000 initialised)) = 4.
Proof.
  destruct (startWidgetRefresh_replaces_timer "tasks" 1000 initialised
              initialised_reachable)
    as [_ H].
  split; [exact H | reflexivity].
Defined.

(** X9.  In a reachable state, [stopWidgetRefresh(name)] cancels the
    timer of [name] and no other; when no timer is recorded for [name] it
    changes nothing. *)
Theorem stopWidgetRefresh_cancels_only_that_timer name s :
  reachable s ->
  live (stopWidgetRefresh name s) = others name (live s) /\
  timers_of name (stopWidgetRefresh name s) = [] /\
  table_get name (intervals (stopWidgetRefresh name s)) = None /\
  (table_get name (intervals s) = None -> stopWidgetRefresh name s = s).
Proof.
  intros Hreach.
  pose proof (stopWidgetRefresh_live name s (reachable_one_timer s Hreach)) as Hl.
  split; [done|]. split; [unfold timers_of; rewrite Hl; apply others_timers_of|].
  split; [by apply stopWidgetRefresh_wf, reachable_wf|].
  apply stopWidgetRefresh_absent.
Qed.

Lemma stopWidgetRefresh_cancels_only_that_timer_witness :
  active (stopWidgetRefresh "tasks" initialised)
    = [("announcements", 600000%Z); ("calendar", 600000%Z);
       ("tickets", 300000%Z)] /\
  timers_of "tasks" (stopWidgetRefresh "tasks" initialised) = [].
Proof.
  destruct (stopWidgetRefresh_cancels_only_that_timer "tasks" initialised
              initialised_reachable)
    as (Hl & Hnone & _).
  split; [unfold active; by rewrite Hl | exact Hnone].
Defined.

(** X10.  In every reachable state in which the service is offline no
    timer runs. *)
Theorem offline_runs_no_timer s :
  reachable s -> isOnline s = false -> live s = [].
Proof. intros Hreach. by apply reachable_wf in Hreach as (_ & _ & _ & Hoff). Qed.

Lemma offline_runs_no_timer_witness : live (handle_offline initialised) = [].
Proof.
  apply (offline_runs_no_timer (handle_offline initialised)); [|reflexivity].
  apply (reachable_call Offline); [exact initialised_reachable | exact I].
Defined.

(** X11.  From a reachable state, when the connection is lost the service
    publishes [network:offline] and cancels every timer; when it comes
    back the service publishes [network:online] and runs exactly the
    configured timers again. *)
Theorem reconnect_restarts_configured_timers s :
  reachable s ->
  let s1 := handle_offline s in
  let s2 := handle_online s1 in
  live s1 = [] /\ isOnline s1 = false /\
  isOnline s2 = true /\
  active s2 = configured s /\
  emitted s2 = emitted s ++ ["network:offline"; "network:online"].
Proof. intros Hreach. by apply offline_online_cycle, reachable_wf. Qed.

Lemma reconnect_restarts_configured_timers_witness :
  active (handle_online (handle_offline tasks_stopped))
    = [("announcements", 600000%Z); ("tasks", 300000%Z);
       ("calendar", 600000%Z); ("tickets", 300000%Z)] /\
  emitted (handle_online (handle_offline tasks_stopped))
    = ["network:offline"; "network:online"].
Proof.
  destruct (reconnect_restarts_configured_timers tasks_stopped
              tasks_stopped_reachable)
    as (_ & _ & _ & Hact & Hem).
  split; [exact Hact | exact Hem].
Defined.

(** X12.  In a reachable state [destroy()] cancels every timer and
    empties [intervals]; the configured rates stay.  It does not detach
    the network listeners (they were installed as anonymous functions), so
    a later loss and return of the connection starts the configured timers
    again. *)
Theorem destroy_cancels_but_reconnect_restarts s :
  reachable s ->
  live (destroy s) = [] /\
  intervals (destroy s) = [] /\
  refreshRates (destroy s) = refreshRates s /\
  active (handle_online (handle_offline (destroy s))) = configured s.
Proof.
  intros Hreach. pose proof (reachable_wf s Hreach) as Hwf.
  destruct (clear_all_fields (intervals s) s) as (_ & _ & Hr & _).
  assert (live (destroy s) = []) as Hnil.
  { destruct Hwf as (_ & _ & Htr & _). by apply clear_all_cancels. }
  split; [done|]. split; [done|]. split; [done|].
  pose proof (perform_wf Destroy s Hwf I) as Hwfd.
  destruct (offline_online_cycle (destroy s) Hwfd) as (_ & _ & _ & Hact & _).
  rewrite Hact. unfold configured. simpl. by rewrite Hr.
Qed.

Lemma destroy_cancels_but_reconnect_restarts_witness :
  live (destroy initialised) = [] /\
  length (active (handle_online (handle_offline (destroy initialised)))) = 4.
Proof.
  destruct (destroy_cancels_but_reconnect_restarts initialised
              initialised_reachable)
    as (Hnil & _ & _ & Hact).
  split; [exact Hnil | by rewrite Hact].
Defined.

(** X13.  In a reachable state [setRefreshRate(name, interval)] records
    the interval in the configuration and replaces the timer of [name]:
    afterwards a timer with that interval runs for [name] exactly when the
    service is online and the interval is positive, and the timers of the
    other widgets are untouched. *)
Theorem setRefreshRate_updates_timer name i s :
  reachable s ->
  let s' := setRefreshRate name i s in
  table_get name (refreshRates s') = Some i /\
  others name (live s') = others name (live s) /\
  timers_of name s'
    = (if isOnline s && (0 <? i)%Z then [Timer (nextHandle s) name i] else []).
Proof.
  intros Hreach. simpl.
  pose proof (reachable_one_timer s Hreach) as Hone.
  set (s1 := set_refreshRates (table_set name i (refreshRates s)) s).
  assert (one_timer s1) as Hone1 by done.
  assert (live (setRefreshRate name i s)
          = others name (live s)
            ++ (if isOnline s && (0 <? i)%Z
                then [Timer (nextHandle s) name i] else [])) as Hl.
  { unfold setRefreshRate. fold s1. destruct (0 <? i)%Z eqn:E.
    - rewrite (startWidgetRefresh_live name i s1 Hone1). by rewrite E.
    - rewrite (stopWidgetRefresh_live name s1 Hone1). simpl.
      by rewrite andb_false_r, app_nil_r. }
  split.
  { unfold setRefreshRate. fold s1.
    destruct (0 <? i)%Z.
    - destruct (startWidgetRefresh_fields name i s1) as [_ ->].
      apply table_get_set_eq.
    - destruct (stopWidgetRefresh_fields name s1) as [_ ->].
      apply table_get_set_eq. }
  unfold timers_of. rewrite Hl. by apply replaced_timer.
Qed.

Lemma setRefreshRate_updates_timer_witness :
  table_get "shortcuts" (refreshRates (setRefreshRate "shortcuts" 5000 initialised))
    = Some 5000%Z /\
  timers_of "shortcuts" (setRefreshRate "shortcuts" 5000 initialised)
    = [Timer 5 "shortcuts" 5000].
Proof.
  destruct (setRefreshRate_updates_timer "shortcuts" 5000 initialised
              initialised_reachable)
    as (Hrate & _ & Ht).
  split; [exact Hrate | exact Ht].
Defined.

End RealtimeMore.

(* ===================================================================== *)
(** * Further properties of the storage service *)
(* ===================================================================== *)

Module StorageMore.
Import Storage.

Lemma append_inj (p a b : string) : p +:+ a = p +:+ b -> a = b.
Proof. induction p as [|c p IH]; simpl; [done|]. intros [= H]. by apply IH. Qed.

Lemma prefix_append (p k : string) : String.prefix p (p +:+ k) = true.
Proof.
  induction p as [|c p IH]; simpl; [by destruct k|].
  by destruct (Ascii.ascii_dec c c).
Qed.

Lemma remove_prefixed_lookup keys : forall (ls : gmap string string) k,
  remove_prefixed keys ls !! k
    = if bool_decide (k ∈ keys) && String.prefix prefix k then None else ls !! k.
Proof.
  unfold remove_prefixed.
  induction keys as [|key keys IH]; intros ls k; simpl; [done|].
  rewrite IH. destruct (decide (k = key)) as [->|Hne].
  - rewrite (bool_decide_eq_true_2 (key ∈ key :: keys)) by left. simpl.
    destruct (String.prefix prefix key) eqn:E.
    + rewrite lookup_delete_eq. by destruct (bool_decide (key ∈ keys)).
    + by rewrite andb_false_r.
  - assert (bool_decide (k ∈ key :: keys) = bool_decide (k ∈ keys)) as ->.
    { apply bool_decide_ext. rewrite elem_of_cons. tauto. }
    destruct (bool_decide (k ∈ keys) && String.prefix prefix k); [done|].
    destruct (String.prefix prefix key); [by rewrite lookup_delete_ne | done].
Qed.

Section More.

Variable JSON_stringify : json -> string.
Variable JSON_parse : string -> option json.
Variable accepts : gmap string string -> string -> string -> bool.

Abbreviation getItem := (getItem JSON_parse).
Abbreviation setItem := (setItem JSON_stringify accepts).
Abbreviation getUserPreferences := (getUserPreferences JSON_parse).
Abbreviation setUserPreferences := (setUserPreferences JSON_stringify accepts).
Abbreviation getDismissedAnnouncements := (getDismissedAnnouncements JSON_parse).
Abbreviation addDismissedAnnouncement :=
  (addDismissedAnnouncement JSON_stringify JSON_parse accepts).

(** X14.  Writing one key does not change what any other key reads as,
    with either store and whether or not the write succeeds. *)
Theorem setItem_leaves_other_keys key key' v st :
  key <> key' ->
  (getItem key' (setItem key v st).2).1 = (getItem key' st).1.
Proof.
  intros Hne. assert (prefix +:+ key <> prefix +:+ key') as Hfull.
  { intros H. by apply append_inj in H. }
  unfold Storage.setItem, Storage.getItem.
  destruct (isLocalStorageAvailable st) eqn:Ha.
  - destruct (accepts _ _ _); simpl; rewrite Ha;
      rewrite ?lookup_insert_ne by done;
      (destruct (localStorage st !! (prefix +:+ key')) as [item|]; [|done]);
      (destruct (truthy_string item); [|done]); by destruct (JSON_parse item).
  - simpl. rewrite Ha, lookup_insert_ne by done.
    by destruct (memoryStorage st !! (prefix +:+ key')).
Qed.

(** X15.  [removeItem] succeeds with either store; afterwards the key
    reads as [null] and every other key reads as before. *)
Theorem removeItem_forgets_only_that_key key st :
  (removeItem key st).1 = true /\
  (getItem key (removeItem key st).2).1 = JNull /\
  (forall key', key' <> key ->
     (getItem key' (removeItem key st).2).1 = (getItem key' st).1).
Proof.
  assert (forall key', key' <> key -> prefix +:+ key <> prefix +:+ key') as Hfull.
  { intros key' Hne H. by apply append_inj in H. }
  unfold removeItem, Storage.getItem.
  destruct (isLocalStorageAvailable st) eqn:Ha; simpl; rewrite Ha.
  - split; [done|]. split; [by rewrite lookup_delete_eq|].
    intros key' Hne. rewrite lookup_delete_ne by auto.
    destruct (localStorage st !! (prefix +:+ key')) as [item|]; [|done].
    destruct (truthy_string item); [|done]. by destruct (JSON_parse item).
  - split; [done|]. split; [by rewrite lookup_delete_eq|].
    intros key' Hne. rewrite lookup_delete_ne by auto.
    by destruct (memoryStorage st !! (prefix +:+ key')).
Qed.

(** X16.  [clear] succeeds with either store; afterwards every key of the
    dashboard reads as [null], and the entries of localStorage whose key
    does not start with the dashboard's prefix are all still there. *)
Theorem clear_removes_only_dashboard_keys st :
  (clear st).1 = true /\
  (forall key, (getItem key (clear st).2).1 = JNull) /\
  (forall k, String.prefix prefix k = false ->
     localStorage (clear st).2 !! k = localStorage st !! k).
Proof.
  unfold clear, Storage.getItem.
  destruct (isLocalStorageAvailable st) eqn:Ha; simpl; rewrite ?Ha.
  - split; [done|]. split.
    + intros key. rewrite remove_prefixed_lookup, prefix_append, andb_true_r.
      destruct (bool_decide_reflect
                  (prefix +:+ key ∈ (map_to_list (localStorage st)).*1))
        as [Hin|Hnin]; [done|].
      destruct (localStorage st !! (prefix +:+ key)) as [item|] eqn:E; [|done].
      destruct Hnin. apply list_elem_of_fmap. exists (prefix +:+ key, item).
      split; [done|]. by apply elem_of_map_to_list.
    + intros k Hk. by rewrite remove_prefixed_lookup, Hk, andb_false_r.
  - split; [done|]. split; [|done]. intros key. by rewrite lookup_empty.
Qed.

(** X17.  [getUserPreferences] returns the default preferences when none
    are stored.  With the in-memory store, what [setUserPreferences] has
    stored is returned as it is, unless it is falsy: then the defaults are
    returned. *)
Theorem preferences_default_and_round_trip st :
  (localStorage st !! (prefix +:+ "user_preferences") = None ->
   memoryStorage st !! (prefix +:+ "user_preferences") = None ->
   (getUserPreferences st).1 = default_preferences) /\
  (isLocalStorageAvailable st = false ->
   forall p,
     (setUserPreferences p st).1 = true /\
     (getUserPreferences (setUserPreferences p st).2).1
       = if truthy p then p else default_preferences).
Proof.
  unfold Storage.getUserPreferences, Storage.setUserPreferences,
    Storage.getItem, Storage.setItem. split.
  - intros -> ->. by destruct (isLocalStorageAvailable st).
  - intros Ha p. rewrite Ha. simpl. rewrite Ha, lookup_insert_eq. simpl.
    split; [done|]. destruct (truthy p) eqn:E; simpl; by rewrite ?E.
Qed.

(** X18.  With the in-memory store, when the dismissed announcements are
    not stored yet or are stored as an array, [addDismissedAnnouncement]
    returns [true] and the id is in the stored array afterwards: appended
    at the end when it was not there, and otherwise the array is left as it
    was, so an id is never stored twice by it. *)
Theorem addDismissedAnnouncement_adds_once id items st :
  isLocalStorageAvailable st = false ->
  (getDismissedAnnouncements st).1 = JArray items ->
  (addDismissedAnnouncement id st).1 = Return true /\
  (getDismissedAnnouncements (addDismissedAnnouncement id st).2).1
    = JArray (if includes_id id items then items else items ++ [JString id]) /\
  (addDismissedAnnouncement id (addDismissedAnnouncement id st).2).2
    = (addDismissedAnnouncement id st).2.
Proof.
  intros Ha Hget.
  assert (forall st0, isLocalStorageAvailable st0 = false ->
            (getDismissedAnnouncements st0).2 = st0) as Hsame.
  { intros st0 Ha0. unfold Storage.getDismissedAnnouncements, Storage.getItem.
    rewrite Ha0. by destruct (memoryStorage st0 !! _). }
  assert (forall l st0, isLocalStorageAvailable st0 = false ->
            includes_id id l = true ->
            (getDismissedAnnouncements st0).1 = JArray l ->
            addDismissedAnnouncement id st0 = (Return true, st0)) as Hin.
  { intros l st0 Ha0 Hl Hg. specialize (Hsame st0 Ha0).
    unfold Storage.addDismissedAnnouncement.
    destruct (Storage.getDismissedAnnouncements JSON_parse st0) as [d st1].
    simpl in *. subst. by rewrite Hl. }
  assert (includes_id id (items ++ [JString id]) = true) as Hincl.
  { unfold includes_id. rewrite existsb_app. simpl.
    by rewrite String.eqb_refl, orb_true_r. }
  destruct (includes_id id items) eqn:E.
  - rewrite (Hin items st Ha E Hget). simpl. by rewrite (Hin items st Ha E Hget).
  - assert (addDismissedAnnouncement id st
            = (Return true,
               set_memoryStorage
                 (<[prefix +:+ "dismissed_announcements" :=
                      JArray (items ++ [JString id])]> (memoryStorage st)) st))
      as Hadd.
    { specialize (Hsame st Ha). unfold Storage.addDismissedAnnouncement.
      destruct (Storage.getDismissedAnnouncements JSON_parse st) as [d st1].
      simpl in *. subst. rewrite E. unfold Storage.setItem. by rewrite Ha. }
    rewrite Hadd. simpl.
    assert ((getDismissedAnnouncements
               (set_memoryStorage
                  (<[prefix +:+ "dismissed_announcements" :=
                       JArray (items ++ [JString id])]> (memoryStorage st)) st)).1
            = JArray (items ++ [JString id])) as Hget'.
    { unfold Storage.getDismissedAnnouncements, Storage.getItem. simpl.
      by rewrite Ha, lookup_insert_eq. }
    split; [done|]. split; [done|].
    by rewrite (Hin (items ++ [JString id]) (set_memoryStorage _ st) Ha Hincl Hget').
Qed.

End More.

Lemma setItem_leaves_other_keys_witness :
  (getItem no_parse "theme"
     (setItem no_stringify accept_all "layout" (JBool true)
        new_memory_storage).2).1
  = (getItem no_parse "theme" new_memory_storage).1.
Proof.
  apply (setItem_leaves_other_keys no_stringify no_parse accept_all
           "layout" "theme" (JBool true) new_memory_storage).
  discriminate.
Defined.

Lemma addDismissedAnnouncement_adds_once_witness :
  (addDismissedAnnouncement no_stringify no_parse accept_all "a1"
     new_memory_storage).1 = Return true /\
  (getDismissedAnnouncements no_parse
     (addDismissedAnnouncement no_stringify no_parse accept_all "a1"
        new_memory_storage).2).1 = JArray [JString "a1"].
Proof.
  destruct (addDismissedAnnouncement_adds_once no_stringify no_parse accept_all
              "a1" [] new_memory_storage eq_refl eq_refl) as (H1 & H2 & _).
  split; [exact H1 | exact H2].
Defined.

End StorageMore.

(* ===================================================================== *)
(** * Further properties of the base widget *)
(* ===================================================================== *)

Module WidgetMore.
Import Widget WidgetFacts.

(** ** The refresh timer *)

Lemma stopAutoRefresh_result w :
  only_timer w ->
  timers (stopAutoRefresh w) = [] /\ refreshInterval (stopAutoRefresh w) = None /\
  nextHandle (stopAutoRefresh w) = nextHandle w /\
  autoRefreshEnabled (stopAutoRefresh w) = autoRefreshEnabled w /\
  refreshIntervalMs (stopAutoRefresh w) = refreshIntervalMs w.
Proof.
  unfold only_timer, stopAutoRefresh. intros Ht.
  destruct (refreshInterval w) as [id|] eqn:E; simpl.
  - rewrite Ht. simpl. by rewrite Pos.eqb_refl.
  - by rewrite Ht, E.
Qed.

Lemma startAutoRefresh_result w :
  only_timer w ->
  let running := autoRefreshEnabled w && (0 <? refreshIntervalMs w)%Z in
  timers (startAutoRefresh w) = (if running then [nextHandle w] else []) /\
  refreshInterval (startAutoRefresh w)
    = (if running then Some (nextHandle w) else None) /\
  autoRefreshEnabled (startAutoRefresh w) = autoRefreshEnabled w /\
  refreshIntervalMs (startAutoRefresh w) = refreshIntervalMs w.
Proof.
  intros Hinv. unfold startAutoRefresh.
  set (w1 := match refreshInterval w with
             | Some _ => stopAutoRefresh w
             | None => w
             end).
  assert (timers w1 = [] /\ refreshInterval w1 = None /\
          nextHandle w1 = nextHandle w /\
          autoRefreshEnabled w1 = autoRefreshEnabled w /\
          refreshIntervalMs w1 = refreshIntervalMs w) as (Ht & Hr & Hn & He & Hm).
  { subst w1. destruct (refreshInterval w) eqn:E.
    - by apply stopAutoRefresh_result.
    - unfold only_timer in Hinv. by rewrite Hinv, E. }
  rewrite He, Hm. simpl.
  destruct (autoRefreshEnabled w && (0 <? refreshIntervalMs w)%Z); simpl.
  - by rewrite Ht, Hn.
  - done.
Qed.

Lemma stopped_timer_inv w :
  timers w = [] -> refreshInterval w = None -> timer_inv w.
Proof. intros Ht Hr. split; rewrite ?Hr; [done | by intros [? ?]]. Qed.

Lemma stopAutoRefresh_timer_inv w : only_timer w -> timer_inv (stopAutoRefresh w).
Proof.
  intros Hinv. destruct (stopAutoRefresh_result w Hinv) as (Ht & Hr & _).
  by apply stopped_timer_inv.
Qed.

Lemma startAutoRefresh_timer_inv w : only_timer w -> timer_inv (startAutoRefresh w).
Proof.
  intros Hinv. destruct (startAutoRefresh_result w Hinv) as (Ht & Hr & He & Hm).
  split; rewrite ?Ht, ?Hr, ?He, ?Hm.
  - by destruct (autoRefreshEnabled w && (0 <? refreshIntervalMs w)%Z).
  - destruct (autoRefreshEnabled w) eqn:E1; simpl; [|by intros [? ?]].
    destruct (Z.ltb_spec 0 (refreshIntervalMs w)); [done | by intros [? ?]].
Qed.

Lemma setAutoRefreshInterval_result ms w :
  timer_inv w ->
  timer_inv (setAutoRefreshInterval ms w) /\
  refreshIntervalMs (setAutoRefreshInterval ms w) = ms /\
  (refreshInterval w = None ->
   timers (setAutoRefreshInterval ms w) = [] /\
   refreshInterval (setAutoRefreshInterval ms w) = None) /\
  (is_Some (refreshInterval w) ->
   timers (setAutoRefreshInterval ms w)
     = (if (0 <? ms)%Z then [nextHandle w] else []) /\
   refreshInterval (setAutoRefreshInterval ms w)
     = (if (0 <? ms)%Z then Some (nextHandle w) else None)).
Proof.
  intros [Ht Hen]. unfold setAutoRefreshInterval. simpl.
  destruct (refreshInterval w) as [id|] eqn:E.
  - destruct (Hen (ltac:(eauto))) as [Hon _].
    assert (only_timer (set_refreshIntervalMs ms w)) as Ho.
    { unfold only_timer. simpl. by rewrite E. }
    destruct (stopAutoRefresh_result _ Ho) as (Ht1 & Hr1 & Hn1 & He1 & Hm1).
    assert (only_timer (stopAutoRefresh (set_refreshIntervalMs ms w))) as Ho1.
    { unfold only_timer. by rewrite Ht1, Hr1. }
    destruct (startAutoRefresh_result _ Ho1) as (Ht2 & Hr2 & He2 & Hm2).
    rewrite He1, Hm1, Hn1 in *. simpl in *. rewrite Hon in *. simpl in *.
    split; [by apply startAutoRefresh_timer_inv|]. split; [by rewrite Hm2|].
    split; [done|]. intros _. by split.
  - simpl. split; [split; simpl; rewrite E; [done | by intros [? ?]]|].
    split; [done|]. split; [done|]. by intros [? ?].
Qed.

Lemma step_timer_inv ev w w' : timer_inv w -> step ev w = Some w' -> timer_inv w'.
Proof.
  intros Hinv. destruct ev as [lid|l r| | |ms|b|]; simpl.
  - intros [= <-]. open_widget w. unfold refresh_call. simpl.
    by destruct isLoading0.
  - open_widget w. destruct awaiting0; [done|]. intros [= <-].
    by destruct l as [|error]; [destruct r as [body|error]|];
      try destruct error.
  - intros [= <-]. apply startAutoRefresh_timer_inv, Hinv.
  - intros [= <-]. apply stopAutoRefresh_timer_inv, Hinv.
  - intros [= <-]. by apply setAutoRefreshInterval_result.
  - intros [= <-]. unfold setAutoRefresh.
    assert (only_timer (set_autoRefreshEnabled b w)) as Ho by apply Hinv.
    destruct b; [by apply startAutoRefresh_timer_inv
                | by apply stopAutoRefresh_timer_inv].
  - intros [= <-]. unfold destroy. simpl.
    assert (only_timer (perform (ConsoleLog "Destroying") w)) as Ho by apply Hinv.
    by apply stopAutoRefresh_timer_inv in Ho.
Qed.

Lemma run_timer_inv evs : forall w w',
  timer_inv w -> run evs w = Some w' -> timer_inv w'.
Proof.
  induction evs as [|ev evs IH]; simpl; intros w w' Hinv.
  - by intros [= <-].
  - destruct (step ev w) as [w1|] eqn:E; [|done].
    apply IH. by eapply step_timer_inv.
Qed.

Lemma new_BaseWidget_timer_inv cls el : timer_inv (new_BaseWidget cls el).
Proof. split; [done | by intros [? ?]]. Qed.

(** X19.  In every state a widget reaches, the browser runs at most one
    refresh timer for it, the one whose id is in [refreshInterval]; and a
    timer runs only while auto-refresh is enabled and the interval is
    positive. *)
Theorem at_most_one_refresh_timer evs cls el w :
  run evs (new_BaseWidget cls el) = Some w ->
  timers w = match refreshInterval w with Some id => [id] | None => [] end /\
  (is_Some (refreshInterval w) ->
   autoRefreshEnabled w = true /\ (0 < refreshIntervalMs w)%Z).
Proof. apply run_timer_inv, new_BaseWidget_timer_inv. Qed.

Lemma at_most_one_refresh_timer_witness :
  exists w,
    run [StartAutoRefresh; StartAutoRefresh; SetAutoRefreshInterval 1000;
         SetAutoRefresh true] tasks_widget = Some w /\
    timers w = [4%positive] /\ refreshInterval w = Some 4%positive.
Proof.
  eexists. split; [reflexivity|].
  destruct (at_most_one_refresh_timer
              [StartAutoRefresh; StartAutoRefresh; SetAutoRefreshInterval 1000;
               SetAutoRefresh true] "TasksWidget" empty_container _
              eq_refl) as [Ht _].
  split; [exact Ht | reflexivity].
Defined.

(** X20.  [setAutoRefreshInterval] stores the interval.  In a state a
    widget has reached it starts no timer when none is running; when one is
    running it replaces it by a single timer with the new interval, or by
    none when the new interval is not positive. *)
Theorem setAutoRefreshInterval_restarts_running_timer evs cls el w ms :
  run evs (new_BaseWidget cls el) = Some w ->
  let w' := setAutoRefreshInterval ms w in
  refreshIntervalMs w' = ms /\
  (refreshInterval w = None -> timers w' = [] /\ refreshInterval w' = None) /\
  (is_Some (refreshInterval w) ->
   timers w' = (if (0 <? ms)%Z then [nextHandle w] else []) /\
   refreshInterval w' = (if (0 <? ms)%Z then Some (nextHandle w) else None)).
Proof.
  intros Hrun. simpl.
  pose proof (run_timer_inv evs _ _ (new_BaseWidget_timer_inv cls el) Hrun)
    as Hinv.
  by destruct (setAutoRefreshInterval_result ms w Hinv) as (_ & H).
Qed.

Lemma setAutoRefreshInterval_restarts_running_timer_witness :
  timers (setAutoRefreshInterval 0 tasks_widget_busy) = [] /\
  timers (setAutoRefreshInterval 60000 tasks_widget_busy) = [2%positive] /\
  timers (setAutoRefreshInterval 60000 tasks_widget) = [].
Proof.
  destruct (setAutoRefreshInterval_restarts_running_timer
              [StartAutoRefresh; Refresh "loader_1"] "TasksWidget" empty_container
              tasks_widget_busy 0 eq_refl) as (_ & _ & H0).
  destruct (setAutoRefreshInterval_restarts_running_timer
              [StartAutoRefresh; Refresh "loader_1"] "TasksWidget" empty_container
              tasks_widget_busy 60000 eq_refl) as (_ & _ & H1).
  destruct (setAutoRefreshInterval_restarts_running_timer
              [] "TasksWidget" empty_container
              tasks_widget 60000 eq_refl) as (_ & H2 & _).
  split; [exact (proj1 (H0 (mk_is_Some _ _ eq_refl)))|].
  split; [exact (proj1 (H1 (mk_is_Some _ _ eq_refl)))|].
  exact (proj1 (H2 eq_refl)).
Defined.

(** ** Refreshing *)

(** X21.  When [refresh()] is called on a widget that is not loading,
    [loadData()] resolves and [render()] writes its content, the call ends
    normally with that content in the container and no overlay over it;
    its effects are, in this order: the loading indicator is shown,
    [loadData] and [render] are called, [widget:refreshed] is emitted with
    the widget's name, and the loading indicator is hidden.  No retry
    listener is added.  The overlay is removed by the assignment to
    [innerHTML], so the loading manager finds none to remove and the
    loader id stays in [activeLoaders]. *)
Theorem refresh_success w loaderId body :
  isLoading w = false ->
  (refresh_call loaderId w).1 = Suspended /\
  overlays (container (refresh_call loaderId w).2)
    = overlays (container w) ++ [loaderId] /\
  let out := refresh_resume Resolved (Rendered body) (refresh_call loaderId w).2 in
  out.1 = Return tt /\
  innerHTML (container out.2) = Markup body /\
  overlays (container out.2) = [] /\
  retryListeners (container out.2) = retryListeners (container w) /\
  effects out.2
    = effects w ++ [ShowElementLoading; CallLoadData; CallRender;
                    Emit "widget:refreshed" (name w) None; HideElementLoading] /\
  isLoading out.2 = false /\
  loadingClass (container out.2) = false /\
  awaiting out.2 = awaiting w /\
  activeLoaders out.2 = set_add loaderId (activeLoaders w).
Proof.
  intros Hl. open_widget w. subst. unfold_refresh.
  repeat split; try done. by rewrite <- !app_assoc.
Qed.

Lemma refresh_success_witness :
  let out := refresh_resume Resolved (Rendered "<ul></ul>")
               (refresh_call "loader_1" tasks_widget).2 in
  innerHTML (container out.2) = Markup "<ul></ul>" /\
  overlays (container out.2) = [] /\
  error_events (effects out.2) = [] /\
  loading_calls (effects out.2) = [ShowElementLoading; HideElementLoading] /\
  activeLoaders out.2 = ["loader_1"].
Proof.
  destruct (refresh_success tasks_widget "loader_1" "<ul></ul>" eq_refl)
    as (_ & _ & _ & Hm & Ho & _ & Heff & _ & _ & _ & Ha).
  split; [exact Hm|]. split; [exact Ho|]. rewrite Heff, Ha. by repeat split.
Defined.

(** X22.  When [render()] throws [error] during a [refresh()], the
    error is logged, [widget:error] is emitted once with the widget's name
    and the error, [widget:refreshed] is not emitted, and the loading
    state is left with no overlay in the container.  If [error] is not
    [null] or [undefined], the call ends normally, the error panel with
    the error's message (or the standard message when it has none)
    replaces the content and one retry listener is added.  If it is, the
    call throws a [TypeError], the content stays what it was, and the
    loading manager removes the overlay and forgets its id. *)
Theorem refresh_render_failure w loaderId error :
  isLoading w = false ->
  let out :=
    refresh_resume Resolved (RenderThrows error) (refresh_call loaderId w).2 in
  effects out.2
    = effects w ++ [ShowElementLoading; CallLoadData; CallRender;
                    ConsoleError error;
                    Emit "widget:error" (name w) (Some error);
                    HideElementLoading] /\
  isLoading out.2 = false /\
  loadingClass (container out.2) = false /\
  overlays (container out.2) = [] /\
  awaiting out.2 = awaiting w /\
  (error <> Nullish ->
   out.1 = Return tt /\
   innerHTML (container out.2) = ErrorPanel (shown_message error) /\
   retryListeners (container out.2) = S (retryListeners (container w))) /\
  (error = Nullish ->
   (exists m, out.1 = Throw (TypeError m)) /\
   innerHTML (container out.2) = innerHTML (container w) /\
   retryListeners (container out.2) = retryListeners (container w) /\
   (overlays (container w) = [] -> loaderId <> "" ->
    loaderId ∉ activeLoaders out.2)).
Proof.
  intros Hl. open_widget w. subst.
  destruct error; unfold_refresh;
    (split; [by rewrite <- !app_assoc|]);
    repeat split; try done; try (by intros [=]); try (by eexists).
  intros Ho Hne. rewrite Ho. simpl.
  destruct loaderId as [|a l]; [done|].
  unfold set_delete. rewrite list_elem_of_In, List.filter_In.
  intros [_ Hf]. by rewrite String.eqb_refl in Hf.
Qed.

Lemma refresh_render_failure_witness :
  let out := refresh_resume Resolved (RenderThrows UserExn)
               (refresh_call "loader_1" tasks_widget).2 in
  out.1 = Return tt /\
  innerHTML (container out.2)
    = ErrorPanel "An error occurred while loading data" /\
  error_events (effects out.2)
    = [Emit "widget:error" "TasksWidget" (Some UserExn)].
Proof.
  destruct (refresh_render_failure tasks_widget "loader_1" UserExn eq_refl)
    as (Heff & _ & _ & _ & _ & Hp & _).
  destruct (Hp ltac:(discriminate)) as (Hr & Hpanel & _).
  split; [exact Hr|]. split; [exact Hpanel|]. by rewrite Heff.
Defined.

(** X23.  [destroy()] does not cancel a refresh that is waiting for
    [loadData]: in a state a widget has reached with a refresh waiting,
    the refresh is still waiting after [destroy()] has emptied the
    container, and when [loadData] settles the refresh writes into the
    container of the destroyed widget: what [render] produces, or the
    error panel for an error that is not [null] or [undefined] (for those
    the container stays empty). *)
Theorem destroy_keeps_pending_refresh evs cls el w l r :
  run evs (new_BaseWidget cls el) = Some w ->
  awaiting w = 1 ->
  let d := (destroy w).2 in
  awaiting d = 1 /\ isLoading d = true /\ innerHTML (container d) = Blank /\
  overlays (container d) = [] /\
  exists w',
    step (Settle l r) d = Some w' /\
    isInitialized w' = false /\
    innerHTML (container w')
      = match l, r with
        | Resolved, Rendered body => Markup body
        | Resolved, RenderThrows error | Rejected error, _ =>
            match error with
            | Nullish => Blank
            | _ => ErrorPanel (shown_message error)
            end
        end.
Proof.
  intros Hrun Haw.
  destruct (run_inv evs _ _ (new_BaseWidget_inv cls el) Hrun) as [Ha _].
  clear Hrun. open_widget w. subst. destruct isLoading0; [|discriminate].
  unfold destroy, stopAutoRefresh. simpl.
  destruct refreshInterval0; simpl;
    (split; [done|]); (split; [done|]); (split; [done|]); (split; [done|]);
    (eexists; split; [reflexivity|]);
    destruct l as [|error]; [destruct r as [body|error]| | destruct r as [body|error]|];
    try destruct error; unfold_refresh; by split.
Qed.

Lemma destroy_keeps_pending_refresh_witness :
  exists w',
    step (Settle Resolved (Rendered "<ul></ul>")) (destroy tasks_widget_busy).2
      = Some w' /\
    isInitialized w' = false /\
    innerHTML (container w') = Markup "<ul></ul>".
Proof.
  destruct (destroy_keeps_pending_refresh [StartAutoRefresh; Refresh "loader_1"]
              "TasksWidget" empty_container tasks_widget_busy
              Resolved (Rendered "<ul></ul>") eq_refl eq_refl)
    as (_ & _ & _ & _ & w' & H).
  by exists w'.
Defined.

(** ** Relative times *)

(** X24.  [formatRelativeTime] answers ['Just now'] for everything less
    than a minute old, including dates in the future; a number of minutes
    from 1 to 59, of hours from 1 to 23 or of days from 1 to 6, rounded
    down, with the plural exactly when the number is not 1; and the
    formatted date from seven days on. *)
Theorem formatRelativeTime_ranges diffMs :
  match formatRelativeTime diffMs with
  | JustNow => (diffMs < 60000)%Z
  | Ago n Minute plural =>
      (1 <= n < 60)%Z /\ (60000 * n <= diffMs < 60000 * (n + 1))%Z /\
      plural = negb (n =? 1)%Z
  | Ago n Hour plural =>
      (1 <= n < 24)%Z /\ (3600000 * n <= diffMs < 3600000 * (n + 1))%Z /\
      plural = negb (n =? 1)%Z
  | Ago n Day plural =>
      (1 <= n < 7)%Z /\ (86400000 * n <= diffMs < 86400000 * (n + 1))%Z /\
      plural = negb (n =? 1)%Z
  | FormattedDate => (604800000 <= diffMs)%Z
  end.
Proof.
  unfold formatRelativeTime.
  pose proof (Z.mul_div_le diffMs 60000 ltac:(lia)) as Hm1.
  pose proof (Z.mul_succ_div_gt diffMs 60000 ltac:(lia)) as Hm2.
  set (m := (diffMs / 60000)%Z) in *.
  pose proof (Z.mul_div_le m 60 ltac:(lia)) as Hh1.
  pose proof (Z.mul_succ_div_gt m 60 ltac:(lia)) as Hh2.
  set (h := (m / 60)%Z) in *.
  pose proof (Z.mul_div_le h 24 ltac:(lia)) as Hd1.
  pose proof (Z.mul_succ_div_gt h 24 ltac:(lia)) as Hd2.
  set (d := (h / 24)%Z) in *.
  destruct (Z.ltb_spec m 1); [lia|].
  destruct (Z.ltb_spec m 60); [repeat split; lia|].
  destruct (Z.ltb_spec h 24); [repeat split; lia|].
  destruct (Z.ltb_spec d 7); [repeat split; lia|].
  lia.
Qed.

End WidgetMore.
